(** * The [syntax] parser-combinator engine: a shallow embedding and its
      specification.

    The development follows the TypeScript sources file by file:
    - [result.ts]            : [Result]
    - [grammar.ts]           : tokens, rule states, [createTokenParser],
                               [createLazyRuleAccessors], [createGrammar],
                               [extendGrammar]
    - [parser.ts]            : [ParseError], [formatErrorMessage],
                               [Parser.tokenize], [Parser.parse], [parse],
                               [createPatternMatcher]
    - [combinators/*.ts]     : [token], [empty], [eof], [optional],
                               [sequence], [choice], [zeroOrMore],
                               [oneOrMore], [map], [text], [list],
                               [struct], [node]
    - [syntax.ts]            : the grammar-description syntax tree,
                               [isNodeTypeIdentifier],
                               [parseSyntaxExpression], [parseSyntaxGrammar]

    Modelling conventions.
    - Source offsets, token indexes and lengths are natural numbers.
    - Strings are [string]; the model is meant for ASCII text.
    - A JavaScript object used as a record with ordered keys (token tables,
      rule tables, struct values) is an association list in own-key order.
      This is how objects treat ordinary keys; the statements that read
      such an object back say so: see [isOrdinaryKey].
    - JavaScript values produced by rules are dynamically typed; they are
      the inhabitants of [Value].
    - An array is a list.  The limit on the length of an array is
      modelled in the loops of [zeroOrMore] and [oneOrMore], which push a
      value for as long as the inner rule advances: see [arrayPush].
    - A function passed to a combinator ([map]) returns a value or throws:
      it has its result in [Outcome].
    - A call either returns, throws, or does not finish within the budget
      of the model: see [Outcome].  Loops written [while (true)] and the
      dereferencing of lazy rule references consume that budget. *)

From Stdlib Require Import List String Ascii Arith ZArith Bool Lia DecimalString.
Import ListNotations.
Local Open Scope string_scope.
Local Open Scope list_scope.
Local Open Scope nat_scope.

#[local] Set Warnings "-register-all".

(* ===================================================================== *)
(** * result.ts *)
(* ===================================================================== *)

(** [Result<T, E> = SuccessResult<T> | ErrorResult<E>]. *)
Inductive Result (T E : Type) : Type :=
| Success (value : T)
| Error (error : E).

Arguments Success {T E} value.
Arguments Error {T E} error.

(* ===================================================================== *)
(** * Outcomes of a call *)
(* ===================================================================== *)

(** A JavaScript call returns a value, throws, or runs forever.  The model
    is executable, so "runs forever" is approximated by a budget: a call
    that exhausts it yields [OutOfFuel], which says nothing about the
    program.  [Thrown] carries the message of the exception. *)
Inductive Outcome (A : Type) : Type :=
| Returned (a : A)
| Thrown (exn : string)
| OutOfFuel.

Arguments Returned {A} a.
Arguments Thrown {A} exn.
Arguments OutOfFuel {A}.

Definition bind {A B : Type} (m : Outcome A) (k : A -> Outcome B) : Outcome B :=
  match m with
  | Returned a => k a
  | Thrown exn => Thrown exn
  | OutOfFuel => OutOfFuel
  end.

Declare Scope outcome_scope.
Delimit Scope outcome_scope with outcome.
Notation "x <- m ;; k" := (bind m (fun x => k))
  (at level 61, m at next level, right associativity) : outcome_scope.
Local Open Scope outcome_scope.

(** The call finished: it returned or threw. *)
Definition finished {A : Type} (m : Outcome A) : bool :=
  match m with
  | OutOfFuel => false
  | _ => true
  end.

(* ===================================================================== *)
(** * JavaScript objects with ordered own keys *)
(* ===================================================================== *)

(** An object is the list of its own properties in [Reflect.ownKeys] order
    (insertion order; keys are assumed not to be array-index strings, which
    JavaScript would move to the front). *)
Definition Obj (V : Type) : Type := list (string * V).

Definition ownKeys {V : Type} (o : Obj V) : list string := List.map fst o.

(** [o[key]]: [None] stands for [undefined]. *)
Fixpoint objGet {V : Type} (key : string) (o : Obj V) : option V :=
  match o with
  | [] => None
  | (k, v) :: rest => if String.eqb k key then Some v else objGet key rest
  end.

(** [o[key] = v]: an existing key keeps its position. *)
Fixpoint objSet {V : Type} (key : string) (v : V) (o : Obj V) : Obj V :=
  match o with
  | [] => [(key, v)]
  | (k, w) :: rest =>
      if String.eqb k key then (k, v) :: rest else (k, w) :: objSet key v rest
  end.

(** [Object.fromEntries(entries)]. *)
Definition fromEntries {V : Type} (entries : list (string * V)) : Obj V :=
  fold_left (fun o kv => objSet (fst kv) (snd kv) o) entries [].

(** [{ ...a, ...b }]. *)
Definition objSpread {V : Type} (a b : Obj V) : Obj V :=
  fold_left (fun o kv => objSet (fst kv) (snd kv) o) b a.

(* ===================================================================== *)
(** * JavaScript arrays and their greatest length *)
(* ===================================================================== *)

(** An array holds at most [2^32 - 1] elements. *)
Definition maxArrayLength : Z := 4294967295.

(** [array.push(v)]: on an array of the greatest length it throws a
    [RangeError]; otherwise [v] is the new last element. *)
Definition arrayPush {A : Type} (array : list A) (v : A) : Outcome (list A) :=
  if (maxArrayLength <=? Z.of_nat (List.length array))%Z
  then Thrown "RangeError: Invalid array length"
  else Returned (array ++ [v]).

(* ===================================================================== *)
(** * grammar.ts: the data model *)
(* ===================================================================== *)

Definition TokenType : Type := string.
Definition AstNodeType : Type := string.

Record Location : Type := mkLocation {
  start : nat;
  end_ : nat
}.

Record Token : Type := mkToken {
  type : TokenType;
  location : Location
}.

(** The values rules produce: [undefined], [null], tokens, strings, arrays (also used
    for the tuples of [sequence]), records (from [struct]) and AST nodes
    [{type, properties, tokens}]. *)
Inductive Value : Type :=
| VUndefined
| VNull
| VToken (t : Token)
| VString (s : string)
| VArray (items : list Value)
| VObject (fields : list (string * Value))
| VNode (nodeType : AstNodeType) (properties : Value)
        (tokens : option (list Location)).

(** [ParserRuleInputState]: all three fields are [readonly]. *)
Record ParserRuleInputState : Type := mkInputState {
  input : list Token;
  source : string;
  currentIndex : nat
}.

(** [ParserRuleOutputState extends ParserRuleInputState]. *)
Record ParserRuleOutputState : Type := mkOutputState {
  inputState : ParserRuleInputState;  (* the inherited fields *)
  value : Value;
  tokens : list Token
}.

(** [{ ...state, value, tokens }]. *)
Definition withValue (state : ParserRuleInputState) (v : Value) (ts : list Token)
  : ParserRuleOutputState :=
  {| inputState := state; value := v; tokens := ts |}.

(** [{ ...state, currentIndex }]. *)
Definition withCurrentIndex (state : ParserRuleInputState) (index : nat)
  : ParserRuleInputState :=
  {| input := input state; source := source state; currentIndex := index |}.

(** [resultState.currentIndex]. *)
Definition outputIndex (resultState : ParserRuleOutputState) : nat :=
  currentIndex (inputState resultState).

(** [class ParserRuleError extends Error]: a message and a location.  No
    field of an error holds a parser state. *)
Record ParserRuleError : Type := mkParserRuleError {
  message : string;
  errorLocation : Location
}.

Definition ParserRuleResult : Type := Result ParserRuleOutputState ParserRuleError.

Record ParserRuleHelpers : Type := mkHelpers {
  eofLocation : Location;
  readToken : nat -> option Token;
  isTokenType : Token -> TokenType -> bool;
  getTokenSource : Token -> string
}.

(** [ParserRule<TToken, TValue>]: a function of the state and the helpers.
    The first argument is the budget of the call (see [Outcome]). *)
Definition ParserRule : Type :=
  nat -> ParserRuleInputState -> ParserRuleHelpers -> Outcome ParserRuleResult.

(* ===================================================================== *)
(** * parser.ts: [ParseError] and the rendering of its message *)
(* ===================================================================== *)

Definition newline : string := String "010"%char EmptyString.

(** [String(n)] for a non-negative integer. *)
Definition stringOfNat (n : nat) : string := NilEmpty.string_of_uint (Nat.to_uint n).

(** [s.repeat(n)]. *)
Fixpoint repeatString (s : string) (n : nat) : string :=
  match n with
  | 0 => ""
  | S n' => s ++ repeatString s n'
  end.

(** [s.padStart(width, ' ')]. *)
Definition padStart (s : string) (width : nat) : string :=
  repeatString " " (width - String.length s) ++ s.

(** [s.slice(from, to)] for non-negative indexes: indexes past the end are
    clamped and an empty range gives the empty string. *)
Definition slice (s : string) (from to : nat) : string :=
  substring from (to - from) s.

Record SourceLocation : Type := mkSourceLocation {
  line : nat;
  column : nat
}.

Record SourceSpan : Type := mkSourceSpan {
  spanStart : SourceLocation;
  spanEnd : SourceLocation
}.

Record SourceLineRange : Type := mkSourceLineRange {
  lineStart : nat;
  lineEnd : nat
}.

(** The [index] of every match of [/\r?\n/g] in the text, scanning from
    offset [i]. *)
Fixpoint lineBreakMatches (text : string) (i : nat) : list nat :=
  match text with
  | EmptyString => []
  | String c rest =>
      if Ascii.eqb c "010"%char then i :: lineBreakMatches rest (S i)
      else if Ascii.eqb c "013"%char then
        match rest with
        | String c' rest' =>
            if Ascii.eqb c' "010"%char then i :: lineBreakMatches rest' (S (S i))
            else lineBreakMatches rest (S i)
        | EmptyString => []
        end
      else lineBreakMatches rest (S i)
  end.

(** The lines that follow a line break: each starts at
    [match.index + match.length], where [match.length] is the length of the
    match array (always 1), and ends at the next match or at the end. *)
Fixpoint lineRangesAfter (matches : list nat) (sourceLength : nat)
  : list SourceLineRange :=
  match matches with
  | [] => []
  | m :: rest =>
      {| lineStart := m + 1;
         lineEnd := match rest with
                    | next :: _ => next
                    | [] => sourceLength
                    end |} :: lineRangesAfter rest sourceLength
  end.

Definition findSourceLineOffsets (source : string) : list SourceLineRange :=
  let matches := lineBreakMatches source 0 in
  {| lineStart := 0;
     lineEnd := match matches with
                | first :: _ => first
                | [] => String.length source
                end |} :: lineRangesAfter matches (String.length source).

(** [lineOffsets.findIndex(...)], counting from [i]. *)
Fixpoint findLineIndex (lineOffsets : list SourceLineRange) (offset i : nat)
  : option nat :=
  match lineOffsets with
  | [] => None
  | l :: rest =>
      if (lineStart l <=? offset) && (offset <=? lineEnd l) then Some i
      else findLineIndex rest offset (S i)
  end.

Definition getLineIndex (lineOffsets : list SourceLineRange) (offset : nat)
  : option nat :=
  if lineEnd (last lineOffsets (mkSourceLineRange 0 0)) <? offset then None
  else findLineIndex lineOffsets offset 0.

Definition getSourceLocation (lineOffsets : list SourceLineRange)
  (lineIndex offset : nat) : SourceLocation :=
  let lineOffset := lineStart (nth lineIndex lineOffsets (mkSourceLineRange 0 0)) in
  {| line := 1 + lineIndex; column := 1 + (offset - lineOffset) |}.

(** [findSourceLocation]: every path of the function returns a location. *)
Definition findSourceLocation (source : string) (offset : nat) : SourceLocation :=
  if offset <=? 0 then {| line := 1; column := 1 |}
  else
    let lineOffsets := findSourceLineOffsets source in
    match getLineIndex lineOffsets offset with
    | None =>
        getSourceLocation lineOffsets (List.length lineOffsets - 1)
          (String.length source)
    | Some lineIndex => getSourceLocation lineOffsets lineIndex offset
    end.

Definition findSourceSpan (source : string) (loc : Location) : option SourceSpan :=
  Some {| spanStart := findSourceLocation source (start loc);
          spanEnd := findSourceLocation source (end_ loc) |}.

Definition formatSourceMarker (lineRange : SourceLineRange) (loc : Location)
  : string :=
  let numLeadingSpaces := start loc - lineStart lineRange in
  let numTrailingSpaces := lineEnd lineRange - end_ loc in
  let lineLength := lineEnd lineRange - lineStart lineRange in
  let numMarkers := Nat.max 1 (lineLength - numLeadingSpaces - numTrailingSpaces) in
  repeatString " " numLeadingSpaces ++ repeatString "^" numMarkers.

(** [lines.join(newline)]. *)
Fixpoint joinLines (lines : list string) : string :=
  match lines with
  | [] => ""
  | [l] => l
  | l :: rest => l ++ newline ++ joinLines rest
  end.

(** The snippet lines of [formatSourceSnippet], for the line ranges
    starting at line index [lineIndex]. *)
Fixpoint snippetLines (source : string) (loc : Location) (lineNumberWidth : nat)
  (lineIndex : nat) (ranges : list SourceLineRange) : list string :=
  match ranges with
  | [] => []
  | lineRange :: rest =>
      let lineNumber := padStart (stringOfNat (lineIndex + 1)) lineNumberWidth in
      let gutterMarker := (lineNumber ++ " |")%string in
      let gutterWidth := String.length gutterMarker in
      (gutterMarker ++ slice source (lineStart lineRange) (lineEnd lineRange)
         ++ newline ++ repeatString " " gutterWidth
         ++ formatSourceMarker lineRange loc)%string
        :: snippetLines source loc lineNumberWidth (S lineIndex) rest
  end.

Definition formatSourceSnippet (source : string) (loc : Location) : option string :=
  let lineOffsets := findSourceLineOffsets source in
  match getLineIndex lineOffsets (start loc), getLineIndex lineOffsets (end_ loc) with
  | Some startLineIndex, Some endLineIndex =>
      let sourceLines :=
        firstn (endLineIndex + 1 - startLineIndex) (skipn startLineIndex lineOffsets) in
      let lineNumberWidth := String.length (stringOfNat (endLineIndex + 1)) in
      Some (joinLines
              (snippetLines source loc lineNumberWidth startLineIndex sourceLines))
  | _, _ => None
  end.

Definition formatErrorMessage (msg : string) (source : string) (loc : Location)
  : string :=
  let sourceSpan := findSourceSpan source loc in
  let sourceSnippet := formatSourceSnippet source loc in
  (msg
    ++ match sourceSpan with
       | Some span =>
           " at [" ++ stringOfNat (line (spanStart span)) ++ ":"
             ++ stringOfNat (column (spanStart span)) ++ "]"
       | None => ""
       end
    ++ match sourceSnippet with
       | Some snippet => if String.eqb snippet "" then "" else newline ++ snippet
       | None => ""
       end)%string.

(** [class ParseError extends Error]: the [message] property is the
    rendering of the constructor's message at the location. *)
Record ParseError : Type := mkParseError {
  parseErrorMessage : string;
  parseErrorSource : string;
  parseErrorLocation : Location
}.

(** [new ParseError(message, source, location)]. *)
Definition newParseError (msg : string) (src : string) (loc : Location) : ParseError :=
  {| parseErrorMessage := formatErrorMessage msg src loc;
     parseErrorSource := src;
     parseErrorLocation := loc |}.

(** A [ParseError] returned where a rule error is expected (as [eof] does):
    the rule result carries its [message] and [location]. *)
Definition asRuleError (e : ParseError) : ParserRuleError :=
  {| message := parseErrorMessage e; errorLocation := parseErrorLocation e |}.

(* ===================================================================== *)
(** * combinators/*.ts *)
(* ===================================================================== *)

(** The combinators keep their names; they live in a module of their own
    because [list], [map] and [repeat] are also names of the list library. *)
Module Combinators.

(** ** token.ts *)
Definition token (tokenType : TokenType) : ParserRule :=
  fun _ state helpers =>
    match readToken helpers (currentIndex state) with
    | Some tok =>
        if isTokenType helpers tok tokenType then
          Returned (Success
            (withValue (withCurrentIndex state (currentIndex state + 1))
                       (VToken tok) [tok]))
        else
          Returned (Error
            (mkParserRuleError ("Expected token: " ++ tokenType) (location tok)))
    | None =>
        Returned (Error
          (mkParserRuleError ("Expected token: " ++ tokenType) (eofLocation helpers)))
    end.

(** ** empty.ts *)
Definition empty : ParserRule :=
  fun _ state _ => Returned (Success (withValue state VNull [])).

(** ** eof.ts *)
Definition eof : ParserRule :=
  fun _ state helpers =>
    match readToken helpers (currentIndex state) with
    | Some tok =>
        Returned (Error
          (asRuleError
             (newParseError "Expected end of input" (source state) (location tok))))
    | None => Returned (Success (withValue state VNull []))
    end.

(** ** optional.ts *)
Definition optional (rule : ParserRule) : ParserRule :=
  fun fuel state helpers =>
    result <- rule fuel state helpers ;;
    match result with
    | Success resultState => Returned (Success resultState)
    | Error _ => Returned (Success (withValue state VNull []))
    end.

(** ** sequence.ts *)

(** The [for (const rule of rules)] loop with its three variables. *)
Fixpoint sequence_loop (rules : list ParserRule) (fuel : nat)
  (helpers : ParserRuleHelpers) (currentState : ParserRuleInputState)
  (values : list Value) (consumed : list Token) : Outcome ParserRuleResult :=
  match rules with
  | [] => Returned (Success (withValue currentState (VArray values) consumed))
  | rule :: rest =>
      result <- rule fuel currentState helpers ;;
      match result with
      | Error e => Returned (Error e)
      | Success resultState =>
          sequence_loop rest fuel helpers (inputState resultState)
            (values ++ [value resultState]) (consumed ++ tokens resultState)
      end
  end.

Definition sequence (rules : list ParserRule) : ParserRule :=
  fun fuel state helpers => sequence_loop rules fuel helpers state [] [].

(** ** choice.ts *)

(** The [for] loop over the alternatives; [currentError] is the best error
    so far with its [index]. *)
Fixpoint choice_loop (rules : list ParserRule) (fuel : nat)
  (state : ParserRuleInputState) (helpers : ParserRuleHelpers)
  (currentError : option (ParserRuleError * nat)) : Outcome ParserRuleResult :=
  match rules with
  | [] =>
      match currentError with
      | None =>
          let currentToken := readToken helpers (currentIndex state) in
          Returned (Error
            (mkParserRuleError "No choices available"
               match currentToken with
               | Some tok => location tok
               | None => eofLocation helpers
               end))
      | Some (e, _) => Returned (Error e)
      end
  | rule :: rest =>
      result <- rule fuel state helpers ;;
      match result with
      | Success resultState => Returned (Success resultState)
      | Error e =>
          let errorLocation := start (errorLocation e) in
          choice_loop rest fuel state helpers
            match currentError with
            | None => Some (e, errorLocation)
            | Some (_, index) =>
                if index <? errorLocation then Some (e, errorLocation)
                else currentError
            end
      end
  end.

Definition choice (rules : list ParserRule) : ParserRule :=
  fun fuel state helpers => choice_loop rules fuel state helpers None.

(** ** zeroOrMore.ts *)

(** The [while (true)] loop.  [n] bounds the number of further iterations
    after the current one.  [values.push] throws when the array of values
    has the greatest length an array can have. *)
Fixpoint zeroOrMore_loop (n : nat) (rule : ParserRule) (fuel : nat)
  (helpers : ParserRuleHelpers) (currentState : ParserRuleOutputState)
  (values : list Value) : Outcome (ParserRuleOutputState * list Value) :=
  result <- rule fuel (inputState currentState) helpers ;;
  match result with
  | Error _ => Returned (currentState, values)
  | Success resultState =>
      if outputIndex resultState =? outputIndex currentState
      then Returned (currentState, values)
      else
        pushed <- arrayPush values (value resultState) ;;
        match n with
        | 0 => OutOfFuel
        | S n' =>
            zeroOrMore_loop n' rule fuel helpers
              (withValue (inputState resultState) (value resultState)
                         (tokens currentState ++ tokens resultState))
              pushed
        end
  end.

Definition zeroOrMore (rule : ParserRule) : ParserRule :=
  fun fuel state helpers =>
    final <- zeroOrMore_loop fuel rule fuel helpers (withValue state VNull []) [] ;;
    let (currentState, values) := final in
    Returned (Success
      (withValue (inputState currentState) (VArray values) (tokens currentState))).

(** ** oneOrMore.ts *)

Fixpoint oneOrMore_loop (n : nat) (rule : ParserRule) (fuel : nat)
  (helpers : ParserRuleHelpers) (currentState : ParserRuleOutputState)
  (values : list Value) : Outcome (ParserRuleOutputState * list Value) :=
  result <- rule fuel (inputState currentState) helpers ;;
  match result with
  | Error _ => Returned (currentState, values)
  | Success resultState =>
      if outputIndex resultState =? outputIndex currentState
      then Returned (currentState, values)
      else
        pushed <- arrayPush values (value resultState) ;;
        match n with
        | 0 => OutOfFuel
        | S n' =>
            oneOrMore_loop n' rule fuel helpers
              (withValue (inputState resultState) (value resultState)
                         (tokens currentState ++ tokens resultState))
              pushed
        end
  end.

Definition oneOrMore (rule : ParserRule) : ParserRule :=
  fun fuel state helpers =>
    let startIndex := currentIndex state in
    firstResult <- rule fuel state helpers ;;
    match firstResult with
    | Error e => Returned (Error e)
    | Success firstResultState =>
        if outputIndex firstResultState =? startIndex then
          Returned (Success
            (withValue (inputState firstResultState)
                       (VArray [value firstResultState])
                       (tokens firstResultState)))
        else
          match fuel with
          | 0 => OutOfFuel
          | S n =>
              final <- oneOrMore_loop n rule fuel helpers
                         (withValue (inputState firstResultState) VNull
                                    (tokens firstResultState))
                         [value firstResultState] ;;
              let (currentState, values) := final in
              Returned (Success
                (withValue (inputState currentState) (VArray values)
                           (tokens currentState)))
          end
    end.

(** ** map.ts *)

(** [transform] is any function of the value: it returns the transformed
    value or throws, and [map] calls it without catching what it throws. *)
Definition map (rule : ParserRule) (transform : Value -> Outcome Value) : ParserRule :=
  fun fuel state helpers =>
    result <- rule fuel state helpers ;;
    match result with
    | Error e => Returned (Error e)
    | Success resultState =>
        transformedValue <- transform (value resultState) ;;
        Returned (Success
          (withValue (inputState resultState) transformedValue (tokens resultState)))
    end.

(** ** text.ts *)

(** [strings.join('')]. *)
Definition joinStrings (strings : list string) : string :=
  fold_right String.append "" strings.

Definition text (rule : ParserRule) : ParserRule :=
  fun fuel state helpers =>
    result <- rule fuel state helpers ;;
    match result with
    | Error e => Returned (Error e)
    | Success resultState =>
        let sourceText :=
          joinStrings (List.map (getTokenSource helpers) (tokens resultState)) in
        Returned (Success
          (withValue (inputState resultState) (VString sourceText)
                     (tokens resultState)))
    end.

(** ** node.ts *)
Definition node (nodeType : AstNodeType) (propertiesRule : ParserRule) : ParserRule :=
  fun fuel state helpers =>
    result <- propertiesRule fuel state helpers ;;
    match result with
    | Error e => Returned (Error e)
    | Success resultState =>
        Returned (Success
          (withValue (inputState resultState)
             (VNode nodeType (value resultState)
                    (Some (List.map location (tokens resultState))))
             (tokens resultState)))
    end.

(** The elements of an array value ([...v] for an array [v]). *)
Definition arrayItems (v : Value) : list Value :=
  match v with
  | VArray items => items
  | _ => []
  end.

(** ** struct.ts *)

Record StructFieldDescriptor : Type := mkField {
  key : option string;
  rule : ParserRule
}.

(** [field(key, rule)]. *)
Definition field (k : option string) (r : ParserRule) : StructFieldDescriptor :=
  {| key := k; rule := r |}.

(** The loop building the record: [values[i]] goes under [fields[i].key]
    unless the key is [null]. *)
Fixpoint structFieldValues (fields : list StructFieldDescriptor)
  (values : list Value) (fieldValues : Obj Value) : Obj Value :=
  match fields with
  | [] => fieldValues
  | f :: rest =>
      structFieldValues rest (tl values)
        match key f with
        | None => fieldValues
        | Some k => objSet k (hd VUndefined values) fieldValues
        end
  end.

Definition struct (fields : list StructFieldDescriptor) : ParserRule :=
  map (sequence (List.map rule fields))
      (fun values =>
         Returned (VObject (structFieldValues fields (arrayItems values) []))).

(** ** list.ts *)

(** [(values) => values ?? []]. *)
Definition orEmptyArray (values : Value) : Outcome Value :=
  Returned match values with
           | VNull | VUndefined => VArray []
           | _ => values
           end.

(** [([_separator, value]) => value]. *)
Definition secondOfPair (pair : Value) : Outcome Value :=
  Returned match pair with
           | VArray (_ :: v :: _) => v
           | _ => VUndefined
           end.

(** [combineListResults]: the last element of the sequence result is the
    array produced by [zeroOrMore]; it is spliced after the others. *)
Definition combineListResults (result : Value) : Outcome Value :=
  let items := arrayItems result in
  let headItems := removelast items in
  let restItems := last items VUndefined in
  Returned (VArray (headItems ++ arrayItems restItems)).

(** [repeat(value, minLength)]: [minLength - 1] copies. *)
Definition repeat {T : Type} (v : T) (minLength : Z) : list T :=
  List.repeat v (Z.to_nat (minLength - 1)).

(** The second branch of [createListMatcher]: the matcher for at least
    [minLength] items, [minLength] being positive. *)
Definition createNonEmptyListMatcher (item separator : ParserRule) (minLength : Z)
  : ParserRule :=
  let tailItem := map (sequence [separator; item]) secondOfPair in
  map (sequence (item :: repeat tailItem minLength ++ [zeroOrMore tailItem]))
      combineListResults.

(** [createListMatcher].  Its first branch calls [createListMatcher] again
    with [minLength = 1], which takes the second branch. *)
Definition createListMatcher (item separator : ParserRule) (minLength : Z)
  : ParserRule :=
  if (minLength <=? 0)%Z then
    let listMatcher := createNonEmptyListMatcher item separator 1 in
    map (optional listMatcher) orEmptyArray
  else createNonEmptyListMatcher item separator minLength.

(** [list(item, separator, options?)]: [options] is the [minLength] option
    when given. *)
Definition list (item separator : ParserRule) (options : option Z) : ParserRule :=
  let minLength := match options with Some m => m | None => 0%Z end in
  createListMatcher item separator minLength.

End Combinators.

(* ===================================================================== *)
(** * grammar.ts: token parsers, lazy rule accessors, grammars *)
(* ===================================================================== *)

(** [TokenParserState]: [input] is [readonly], [currentIndex] is mutable. *)
Record TokenParserState : Type := mkTokenParserState {
  parserInput : string;
  parserIndex : nat
}.

Definition TokenParserResult : Type := option TokenParserState.

(** [TokenParser]: a function of a state object that may assign the
    object's [currentIndex].  The model returns the result together with
    the argument object as the call leaves it. *)
Definition TokenParser : Type :=
  TokenParserState -> TokenParserResult * TokenParserState.

(** A regular expression, seen through the only operation the engine
    performs on it: a sticky match.  [re input index] is [Some lastIndex]
    when the expression matches [input] starting exactly at [index], the
    match ending at [lastIndex], and [None] when it does not. *)
Definition RegExp : Type := string -> nat -> option nat.

(** [new RegExp(escapeRegExpSource(pattern))]: every special character of
    the string is escaped, so the expression matches the text itself. *)
Definition literalRegExp (pattern : string) : RegExp :=
  fun input index =>
    if (index <=? String.length input)
       && String.eqb (substring index (String.length pattern) input) pattern
    then Some (index + String.length pattern)
    else None.

(** [RegExp | string]. *)
Inductive Pattern : Type :=
| PatternString (text : string)
| PatternRegExp (re : RegExp).

Definition createTokenParser (pattern : Pattern) : TokenParser :=
  let regex := match pattern with
               | PatternString text => literalRegExp text
               | PatternRegExp re => re
               end in
  fun state =>
    match regex (parserInput state) (parserIndex state) with
    | None => (None, state)
    | Some lastIndex =>
        let state' := mkTokenParserState (parserInput state) lastIndex in
        (Some state', state')
    end.

(** The handle a rule factory receives: an object of rules by name. *)
Definition RulesHandle : Type := Obj ParserRule.

Definition ParserRuleFactory : Type := RulesHandle -> ParserRule.

(** Calling [undefined] as a rule. *)
Definition undefinedRule : ParserRule :=
  fun _ _ _ => Thrown "TypeError: rule is not a function".

(** [$[name]] used as a rule: a missing property reads as [undefined]. *)
Definition getRule (handle : RulesHandle) (name : string) : ParserRule :=
  match objGet name handle with
  | Some r => r
  | None => undefinedRule
  end.

(** [ruleInstances[key]] after [createLazyRuleAccessors] has populated the
    table: the factory of [key] applied to the handle [rules].  The handle
    refers back to the table, so the table is unfolded to a [depth]: the
    number of lazy references that may be followed one inside the other. *)
Fixpoint ruleInstance (ruleDefinitions : Obj ParserRuleFactory) (depth : nat)
  (key : string) {struct depth} : ParserRule :=
  match depth with
  | 0 => fun _ _ _ => OutOfFuel
  | S depth' =>
      match objGet key ruleDefinitions with
      | None => undefinedRule
      | Some ruleFactory =>
          ruleFactory
            (fromEntries
               (List.map (fun k => (k, ruleInstance ruleDefinitions depth' k))
                         (ownKeys ruleDefinitions)))
      end
  end.

(** The object [rules] of [createLazyRuleAccessors], as the factories see
    it when [depth] further lazy references may be followed. *)
Definition lazyRules (ruleDefinitions : Obj ParserRuleFactory) (depth : nat)
  : RulesHandle :=
  fromEntries
    (List.map (fun k => (k, ruleInstance ruleDefinitions depth k))
              (ownKeys ruleDefinitions)).

(** [createLazyRuleAccessor(ruleInstances, key)]: the rule that looks the
    instance up when it is called. *)
Definition createLazyRuleAccessor (ruleDefinitions : Obj ParserRuleFactory)
  (key : string) : ParserRule :=
  fun fuel state helpers => ruleInstance ruleDefinitions fuel key fuel state helpers.

(** [createLazyRuleAccessors(ruleDefinitions)] returns the object [rules]:
    one accessor per own key of [ruleDefinitions]. *)
Definition createLazyRuleAccessors (ruleDefinitions : Obj ParserRuleFactory)
  : RulesHandle :=
  fromEntries
    (List.map (fun k => (k, createLazyRuleAccessor ruleDefinitions k))
              (ownKeys ruleDefinitions)).

Record Grammar : Type := mkGrammar {
  tokenTypes : Obj TokenParser;
  rules : Obj ParserRule
}.

(** [RegExp | string | TokenParser]. *)
Inductive TokenDefinition : Type :=
| TokenPattern (pattern : Pattern)
| TokenFunction (parser : TokenParser).

Definition createGrammar (tokens : Obj TokenDefinition)
  (rulesFactory : Obj TokenType -> Obj ParserRuleFactory) : Grammar :=
  let tokenTypes :=
    fromEntries
      (List.map (fun kv =>
                   (fst kv,
                    match snd kv with
                    | TokenFunction parser => parser
                    | TokenPattern pattern => createTokenParser pattern
                    end)) tokens) in
  let tokenTypeNames := fromEntries (List.map (fun k => (k, k)) (ownKeys tokens)) in
  let ruleDefinitions := rulesFactory tokenTypeNames in
  let ruleAccessors := createLazyRuleAccessors ruleDefinitions in
  {| tokenTypes := tokenTypes; rules := ruleAccessors |}.

Definition extendGrammar (grammar : Grammar) (newRules : Obj ParserRuleFactory)
  : Grammar :=
  {| tokenTypes := tokenTypes grammar;
     rules := objSpread (rules grammar) (createLazyRuleAccessors newRules) |}.

(* ===================================================================== *)
(** * parser.ts: the lexer and the evaluator driver *)
(* ===================================================================== *)

Definition LexerResult : Type := Result (list Token) ParseError.
Definition ParseResult : Type := Result Value ParseError.

Module Parser.

(** The [for (const [tokenType, tokenParser] of tokenParsers)] loop of
    [tokenize].  [stateIndex] is [state.currentIndex] as the parsers tried
    so far have left it, [currentIndex] the constant read when the
    iteration of the outer loop began.  The result is the token pushed and
    [nextIndex], or [None] when every parser returned [null]. *)
Fixpoint tryTokenParsers (tokenParsers : list (TokenType * TokenParser))
  (input : string) (stateIndex currentIndex : nat) : option (Token * nat) :=
  match tokenParsers with
  | [] => None
  | (tokenType, tokenParser) :: rest =>
      let (result, stateAfter) := tokenParser (mkTokenParserState input stateIndex) in
      match result with
      | None => tryTokenParsers rest input (parserIndex stateAfter) currentIndex
      | Some resultState =>
          let nextIndex := parserIndex resultState in
          Some ({| type := tokenType;
                   location := {| start := currentIndex; end_ := nextIndex |} |},
                nextIndex)
      end
  end.

(** The [while (state.currentIndex < input.length)] loop of [tokenize];
    [n] bounds the number of further iterations after the current one. *)
Fixpoint tokenize_loop (n : nat) (tokenParsers : list (TokenType * TokenParser))
  (input : string) (tokens : list Token) (currentIndex : nat)
  : Outcome LexerResult :=
  if currentIndex <? String.length input then
    match tryTokenParsers tokenParsers input currentIndex currentIndex with
    | Some (tok, nextIndex) =>
        match n with
        | 0 => OutOfFuel
        | S n' => tokenize_loop n' tokenParsers input (tokens ++ [tok]) nextIndex
        end
    | None =>
        Returned (Error
          (newParseError "Unrecognized token" input
             {| start := currentIndex; end_ := currentIndex + 1 |}))
    end
  else Returned (Success tokens).

(** [Parser.tokenize(input)]; the token parsers are tried in the own-key
    order of [grammar.tokenTypes]. *)
Definition tokenize (grammar : Grammar) (input : string) (fuel : nat)
  : Outcome LexerResult :=
  tokenize_loop fuel (tokenTypes grammar) input [] 0.

(** The [helpers] object built by [Parser.parse]. *)
Definition parseHelpers (input : list Token) (source : string) : ParserRuleHelpers :=
  {| eofLocation := {| start := String.length source; end_ := String.length source |};
     readToken := fun index =>
       if List.length input <=? index then None else nth_error input index;
     isTokenType := fun tok tokenType => String.eqb (type tok) tokenType;
     getTokenSource := fun tok =>
       slice source (start (location tok)) (end_ (location tok)) |}.

(** [Parser.parse(input, source, rootNodeType)]. *)
Definition parse (grammar : Grammar) (input : list Token) (source : string)
  (rootNodeType : AstNodeType) (fuel : nat) : Outcome ParseResult :=
  let state := {| input := input; source := source; currentIndex := 0 |} in
  let helpers := parseHelpers input source in
  match objGet rootNodeType (rules grammar) with
  | None => Thrown "TypeError: parser is not a function"
  | Some parser =>
      result <- parser fuel state helpers ;;
      match result with
      | Error e =>
          Returned (Error (newParseError (message e) source (errorLocation e)))
      | Success resultState =>
          if negb (outputIndex resultState =? List.length input) then
            match nth_error input (outputIndex resultState) with
            | Some nextToken =>
                Returned (Error
                  (newParseError "Expected end of input" source (location nextToken)))
            | None =>
                Thrown "TypeError: Cannot read properties of undefined (reading 'location')"
            end
          else Returned (Success (value resultState))
      end
  end.

End Parser.

(** [parse(input, grammar, rootNodeType)]. *)
Definition parse (input : string) (grammar : Grammar) (rootNodeType : AstNodeType)
  (fuel : nat) : Outcome ParseResult :=
  lexerResult <- Parser.tokenize grammar input fuel ;;
  match lexerResult with
  | Error e => Returned (Error e)
  | Success lexed => Parser.parse grammar lexed input rootNodeType fuel
  end.

(** [Symbol('ROOT')]: a key no grammar uses (a symbol is distinct from
    every string key). *)
Definition PatternMatcherRootNodeType : AstNodeType := "Symbol(ROOT)".

Record PatternMatch : Type := mkPatternMatch {
  matchValue : Value;
  matchTokens : list Location
}.

Definition PatternMatcher : Type :=
  string -> nat -> Outcome (Result PatternMatch ParseError).

Definition createPatternMatcher (grammar : Grammar)
  (pattern : Obj TokenType -> ParserRuleFactory) : PatternMatcher :=
  let tokenTypeNames :=
    fromEntries (List.map (fun k => (k, k)) (ownKeys (tokenTypes grammar))) in
  let ruleFactory := pattern tokenTypeNames in
  let mergedGrammar :=
    extendGrammar grammar
      [(PatternMatcherRootNodeType,
        fun handle =>
          let rule := ruleFactory handle in
          fun fuel state helpers =>
            result <- rule fuel state helpers ;;
            match result with
            | Error e => Returned (Error e)
            | Success resultState =>
                Returned (Success
                  (withValue (inputState resultState)
                     (VNode PatternMatcherRootNodeType
                        (VObject [("value", value resultState)])
                        (Some (List.map location (tokens resultState))))
                     (tokens resultState)))
            end)] in
  fun input fuel =>
    result <- parse input mergedGrammar PatternMatcherRootNodeType fuel ;;
    match result with
    | Error e => Returned (Error e)
    | Success (VNode _ (VObject properties) nodeTokens) =>
        Returned (Success
          {| matchValue := match objGet "value" properties with
                           | Some v => v
                           | None => VUndefined
                           end;
             matchTokens := match nodeTokens with
                            | Some ts => ts
                            | None => []
                            end |})
    | Success _ => Thrown "TypeError: Cannot destructure the parse result"
    end.

(* ===================================================================== *)
(** * syntax.ts: from a grammar description to a grammar *)
(* ===================================================================== *)

(** The syntax tree of a grammar description, as [parseSyntaxAst] returns
    it.  Each constructor is the node type of the same name with its
    [properties]; the [tokens] of the nodes play no part in what follows
    and are left out. *)
Inductive SyntaxExpressionNode : Type :=
| SyntaxEmptyNode
| SyntaxTerminalIdentifierNode (name : string)
| SyntaxNonTerminalIdentifierNode (name : string)
| SyntaxListNode (item separator : SyntaxExpressionNode)
| SyntaxStructNode (fields : list (option string * SyntaxExpressionNode))
| SyntaxReadNode (input : SyntaxExpressionNode)
| SyntaxChoiceNode (alternatives : list SyntaxExpressionNode)
| SyntaxSequenceNode (elements : list SyntaxExpressionNode).

(** [SyntaxLiteralNode | SyntaxPatternNode]. *)
Inductive SyntaxTokenNode : Type :=
| SyntaxLiteralNode (literal : string)
| SyntaxPatternNode (pattern : RegExp).

(** [SyntaxTerminalRuleNode | SyntaxNonTerminalRuleNode]; [target] is the
    name of the identifier node. *)
Inductive SyntaxRuleNode : Type :=
| SyntaxTerminalRuleNode (target : string) (body : SyntaxTokenNode)
| SyntaxNonTerminalRuleNode (target : string) (body : SyntaxExpressionNode).

Record SyntaxProgramNode : Type := mkProgram {
  programRules : list SyntaxRuleNode
}.

(** [c.toUpperCase()] for an ASCII character. *)
Definition upperCaseAscii (c : ascii) : ascii :=
  let n := nat_of_ascii c in
  if (97 <=? n) && (n <=? 122) then ascii_of_nat (n - 32) else c.

(** [s.toUpperCase()] for ASCII text. *)
Fixpoint toUpperCase (s : string) : string :=
  match s with
  | EmptyString => EmptyString
  | String c rest => String (upperCaseAscii c) (toUpperCase rest)
  end.

(** [s.charAt(0)]: the empty string when [s] is empty. *)
Definition charAt0 (s : string) : string :=
  match s with
  | EmptyString => EmptyString
  | String c _ => String c EmptyString
  end.

(** [isNodeTypeIdentifier(identifier)], on the identifier's name. *)
Definition isNodeTypeIdentifier (name : string) : bool :=
  String.eqb (charAt0 name) (toUpperCase (charAt0 name)).

Definition parseTerminalToken (body : SyntaxTokenNode) : TokenParser :=
  match body with
  | SyntaxLiteralNode literal => createTokenParser (PatternString literal)
  | SyntaxPatternNode pattern => createTokenParser (PatternRegExp pattern)
  end.

Fixpoint parseSyntaxExpression (node : SyntaxExpressionNode) : ParserRuleFactory :=
  match node with
  | SyntaxEmptyNode => fun _ => Combinators.empty
  | SyntaxTerminalIdentifierNode name => fun _ => Combinators.token name
  | SyntaxNonTerminalIdentifierNode name => fun handle => getRule handle name
  | SyntaxListNode item separator =>
      let itemParser := parseSyntaxExpression item in
      let separatorParser := parseSyntaxExpression separator in
      fun handle => Combinators.list (itemParser handle) (separatorParser handle) None
  | SyntaxStructNode fields =>
      let fieldParsers :=
        List.map (fun f => (fst f, parseSyntaxExpression (snd f))) fields in
      fun handle =>
        Combinators.struct
          (List.map (fun fp => Combinators.field (fst fp) (snd fp handle)) fieldParsers)
  | SyntaxChoiceNode alternatives =>
      let alternativeParsers := List.map parseSyntaxExpression alternatives in
      fun handle =>
        Combinators.choice (List.map (fun p => p handle) alternativeParsers)
  | SyntaxSequenceNode elements =>
      let itemParsers := List.map parseSyntaxExpression elements in
      fun handle => Combinators.sequence (List.map (fun p => p handle) itemParsers)
  | SyntaxReadNode input =>
      let inputParser := parseSyntaxExpression input in
      fun handle => Combinators.text (inputParser handle)
  end.

(** [rules.find((rule) => rule.type === SyntaxNodeType.NonTerminalRule)],
    with the rule found narrowed to its target name and body. *)
Fixpoint findNonTerminalRule (rules : list SyntaxRuleNode)
  : option (string * SyntaxExpressionNode) :=
  match rules with
  | [] => None
  | SyntaxNonTerminalRuleNode target body :: _ => Some (target, body)
  | SyntaxTerminalRuleNode _ _ :: rest => findNonTerminalRule rest
  end.

(** The entries of [tokenTypes]: one per terminal rule, in order. *)
Fixpoint tokenDefinitions (rules : list SyntaxRuleNode)
  : list (TokenType * TokenDefinition) :=
  match rules with
  | [] => []
  | SyntaxTerminalRuleNode name body :: rest =>
      (name, TokenFunction (parseTerminalToken body)) :: tokenDefinitions rest
  | SyntaxNonTerminalRuleNode _ _ :: rest => tokenDefinitions rest
  end.

(** The entries of [ruleFactories]: one per non-terminal rule, in order;
    the rule of a node type wraps its properties in [node]. *)
Fixpoint ruleFactoryEntries (rules : list SyntaxRuleNode)
  : list (string * ParserRuleFactory) :=
  match rules with
  | [] => []
  | SyntaxTerminalRuleNode _ _ :: rest => ruleFactoryEntries rest
  | SyntaxNonTerminalRuleNode ruleName body :: rest =>
      (if isNodeTypeIdentifier ruleName then
         let propertiesParser := parseSyntaxExpression body in
         (ruleName, fun handle => Combinators.node ruleName (propertiesParser handle))
       else (ruleName, parseSyntaxExpression body))
        :: ruleFactoryEntries rest
  end.

Record SyntaxGrammar : Type := mkSyntaxGrammar {
  grammar : Grammar;
  rootNodeType : AstNodeType
}.

(** [parseSyntaxGrammar(ast)]; a thrown [SyntaxError] is [Thrown]. *)
Definition parseSyntaxGrammar (ast : SyntaxProgramNode) : Outcome SyntaxGrammar :=
  let rules := programRules ast in
  match findNonTerminalRule rules with
  | None => Thrown "SyntaxError: Missing root rule in syntax grammar"
  | Some (rootRuleName, _) =>
      if negb (isNodeTypeIdentifier rootRuleName) then
        Thrown ("SyntaxError: Root rule must define an AST Node: " ++ rootRuleName)
      else
        let tokenTypes := fromEntries (tokenDefinitions rules) in
        let ruleFactories := fromEntries (ruleFactoryEntries rules) in
        let parsedGrammar := createGrammar tokenTypes (fun _ => ruleFactories) in
        Returned {| grammar := parsedGrammar; rootNodeType := rootRuleName |}
  end.

(* ===================================================================== *)
(** * Notions used in the statements *)
(* ===================================================================== *)

(** [error.location.start]. *)
Definition errorStart (e : ParserRuleError) : nat := start (errorLocation e).

(** Among [errors], listed in the order of the alternatives, [e] is the
    error at position [k]; no error of the list starts further; and every
    error before position [k] starts strictly before [e]. *)
Definition furthestEarliest (errors : list ParserRuleError) (k : nat)
  (e : ParserRuleError) : Prop :=
  nth_error errors k = Some e
  /\ (forall j e', nth_error errors j = Some e' -> errorStart e' <= errorStart e)
  /\ (forall j e', j < k -> nth_error errors j = Some e' ->
        errorStart e' < errorStart e).

(** A run of separators and items from a state: each separator and the
    item after it succeed, one after the other.  [steps] lists, for each
    separator consumed, the output states of the separator and of the item
    that follows it. *)
Fixpoint tailRun (item separator : ParserRule) (fuel : nat)
  (helpers : ParserRuleHelpers) (state : ParserRuleInputState)
  (steps : list (ParserRuleOutputState * ParserRuleOutputState)) : Prop :=
  match steps with
  | [] => True
  | (separatorState, itemState) :: rest =>
      separator fuel state helpers = Returned (Success separatorState)
      /\ item fuel (inputState separatorState) helpers = Returned (Success itemState)
      /\ tailRun item separator fuel helpers (inputState itemState) rest
  end.

(** The state a run ends in: that of its last item. *)
Fixpoint runEnd (state : ParserRuleInputState)
  (steps : list (ParserRuleOutputState * ParserRuleOutputState))
  : ParserRuleInputState :=
  match steps with
  | [] => state
  | (_, itemState) :: rest => runEnd (inputState itemState) rest
  end.

(** The values of the items of a run, and the tokens it consumed. *)
Definition runValues (steps : list (ParserRuleOutputState * ParserRuleOutputState))
  : list Value :=
  List.map (fun step => value (snd step)) steps.

Definition runTokens (steps : list (ParserRuleOutputState * ParserRuleOutputState))
  : list Token :=
  flat_map (fun step => tokens (fst step) ++ tokens (snd step)) steps.

(** No further separator-and-item is taken from the state: the separator
    fails there, or the item fails after it, or both succeed without
    advancing [currentIndex]. *)
Definition tailStops (item separator : ParserRule) (fuel : nat)
  (helpers : ParserRuleHelpers) (state : ParserRuleInputState) : Prop :=
  match separator fuel state helpers with
  | Returned (Error _) => True
  | Returned (Success separatorState) =>
      match item fuel (inputState separatorState) helpers with
      | Returned (Error _) => True
      | Returned (Success itemState) => outputIndex itemState = currentIndex state
      | _ => False
      end
  | _ => False
  end.

(** [minLength] as [list] reads it from its options: 0 by default. *)
Definition minLengthOf (options : option Z) : Z :=
  match options with
  | Some m => m
  | None => 0%Z
  end.

(** [tailItem] of [createListMatcher]: the separator, then the item. *)
Definition tailItemOf (item separator : ParserRule) : ParserRule :=
  Combinators.map (Combinators.sequence [separator; item]) Combinators.secondOfPair.

Definition isTerminalRule (r : SyntaxRuleNode) : bool :=
  match r with
  | SyntaxTerminalRuleNode _ _ => true
  | SyntaxNonTerminalRuleNode _ _ => false
  end.

(** The name begins with one of the letters [A] to [Z]. *)
Definition beginsWithUppercaseLetter (name : string) : bool :=
  match name with
  | String c _ => (65 <=? nat_of_ascii c) && (nat_of_ascii c <=? 90)
  | EmptyString => false
  end.

(** The name begins with one of the letters [a] to [z]. *)
Definition beginsWithLowercaseLetter (name : string) : bool :=
  match name with
  | String c _ => (97 <=? nat_of_ascii c) && (nat_of_ascii c <=? 122)
  | EmptyString => false
  end.

(** As the specification words it: the name of the first non-terminal rule,
    in declaration order, whose name begins with an uppercase letter. *)
Fixpoint firstUppercaseNonTerminal (rules : list SyntaxRuleNode) : option string :=
  match rules with
  | [] => None
  | SyntaxNonTerminalRuleNode name _ :: rest =>
      if beginsWithUppercaseLetter name then Some name
      else firstUppercaseNonTerminal rest
  | SyntaxTerminalRuleNode _ _ :: rest => firstUppercaseNonTerminal rest
  end.

(** The description
    [A ::= "a"], [<item> ::= A], [<Program> ::= [<item>, A]]. *)
Definition lowercaseFirstProgram : SyntaxProgramNode :=
  {| programRules :=
       [SyntaxTerminalRuleNode "A" (SyntaxLiteralNode "a");
        SyntaxNonTerminalRuleNode "item" (SyntaxTerminalIdentifierNode "A");
        SyntaxNonTerminalRuleNode "Program"
          (SyntaxListNode (SyntaxNonTerminalIdentifierNode "item")
                          (SyntaxTerminalIdentifierNode "A"))] |}.

(** The description [A ::= "a"], [<_items> ::= [A, A]]. *)
Definition underscoreProgram : SyntaxProgramNode :=
  {| programRules :=
       [SyntaxTerminalRuleNode "A" (SyntaxLiteralNode "a");
        SyntaxNonTerminalRuleNode "_items"
          (SyntaxListNode (SyntaxTerminalIdentifierNode "A")
                          (SyntaxTerminalIdentifierNode "A"))] |}.

(** The description [A ::= "a"], [<Items> ::= [A, A]]. *)
Definition uppercaseProgram : SyntaxProgramNode :=
  {| programRules :=
       [SyntaxTerminalRuleNode "A" (SyntaxLiteralNode "a");
        SyntaxNonTerminalRuleNode "Items"
          (SyntaxListNode (SyntaxTerminalIdentifierNode "A")
                          (SyntaxTerminalIdentifierNode "A"))] |}.

(** The match of a declared pattern at a position of the input: the end
    of the match, when the pattern matches there. *)
Definition patternMatch (pattern : Pattern) (input : string) (index : nat)
  : option nat :=
  match pattern with
  | PatternString text => literalRegExp text input index
  | PatternRegExp re => re input index
  end.

(** The first declared pattern, in declaration order, that matches at the
    position, with the end of its match. *)
Fixpoint firstMatch (patterns : list (TokenType * Pattern)) (input : string)
  (index : nat) : option (TokenType * nat) :=
  match patterns with
  | [] => None
  | (tokenType, pattern) :: rest =>
      match patternMatch pattern input index with
      | Some lastIndex => Some (tokenType, lastIndex)
      | None => firstMatch rest input index
      end
  end.

(** As the specification words it: the first declared pattern that matches
    a non-empty prefix at the position; a zero-length match is passed over. *)
Fixpoint firstNonEmptyMatch (patterns : list (TokenType * Pattern)) (input : string)
  (index : nat) : option (TokenType * nat) :=
  match patterns with
  | [] => None
  | (tokenType, pattern) :: rest =>
      match patternMatch pattern input index with
      | Some lastIndex =>
          if index <? lastIndex then Some (tokenType, lastIndex)
          else firstNonEmptyMatch rest input index
      | None => firstNonEmptyMatch rest input index
      end
  end.

(** The token parsers of the declared patterns, in declaration order: the
    [tokenTypes] of a grammar whose tokens are strings and regular
    expressions. *)
Definition patternParsers (patterns : list (TokenType * Pattern)) : Obj TokenParser :=
  List.map (fun kp => (fst kp, createTokenParser (snd kp))) patterns.

(** The number of leading characters [c] of a text. *)
Fixpoint countLeading (c : ascii) (text : string) : nat :=
  match text with
  | String c' rest => if Ascii.eqb c' c then S (countLeading c rest) else 0
  | EmptyString => 0
  end.

(** The regular expression [/c*/] for a character [c]: at any position of
    the input it matches the run of [c]s found there, which may be empty. *)
Definition starRegExp (c : ascii) : RegExp :=
  fun input index =>
    if index <=? String.length input then
      Some (index
            + countLeading c (substring index (String.length input - index) input))
    else None.

(** The token declarations [A ::= /a*/] and [B ::= "b"], in this order. *)
Definition starPatterns : list (TokenType * Pattern) :=
  [("A", PatternRegExp (starRegExp "a"%char)); ("B", PatternString "b")].

Definition starGrammar : Grammar :=
  createGrammar
    (List.map (fun kp => (fst kp, TokenPattern (snd kp))) starPatterns)
    (fun _ => []).

(** On the token stream [tokens], every success of the rule keeps the
    stream, does not move [currentIndex] backwards and does not move it
    past the end of the stream (a state already past the end stays where
    it is).  The combinators of the algebra give such rules from such
    rules, and so does the lowering of a grammar description: see
    [syntax_grammar_rules_move_within]. *)
Definition movesWithin (tokens : list Token) (r : ParserRule) (fuel : nat)
  (helpers : ParserRuleHelpers) : Prop :=
  forall state st,
    input state = tokens ->
    r fuel state helpers = Returned (Success st) ->
    input (inputState st) = tokens
    /\ currentIndex state <= outputIndex st
    /\ outputIndex st <= Nat.max (currentIndex state) (List.length tokens).


(** The helpers read their tokens from the stream [tokens]: nothing is
    read at or past its length ([readToken] of [Parser.parse]). *)
Definition readsFrom (tokens : list Token) (helpers : ParserRuleHelpers) : Prop :=
  forall index tok, readToken helpers index = Some tok -> index < List.length tokens.

(** A rule written by hand against the [ParserRule] interface: it skips
    one token without looking whether there is one,
    [(state) => ({ type: ResultType.Success, value: { ...state,
    currentIndex: state.currentIndex + 1, value: null, tokens: [] } })]. *)
Definition skipOne : ParserRule :=
  fun _ state _ =>
    Returned (Success
      (withValue (withCurrentIndex state (currentIndex state + 1)) VNull [])).

(** The rules of a sequence succeed one after the other from a state:
    [outs] lists the output state of each, every rule starting where the
    rule before it ended. *)
Fixpoint chain (rules : list ParserRule) (fuel : nat) (helpers : ParserRuleHelpers)
  (state : ParserRuleInputState) (outs : list ParserRuleOutputState) : Prop :=
  match rules, outs with
  | [], [] => True
  | r :: rules', out :: outs' =>
      r fuel state helpers = Returned (Success out)
      /\ chain rules' fuel helpers (inputState out) outs'
  | _, _ => False
  end.

(** The state a chain ends in: that of its last output, or the state it
    started from when it is empty. *)
Fixpoint chainEnd (state : ParserRuleInputState) (outs : list ParserRuleOutputState)
  : ParserRuleInputState :=
  match outs with
  | [] => state
  | out :: outs' => chainEnd (inputState out) outs'
  end.

(** Tokens that follow one another without a gap from the offset [from]:
    each starts where the one before it ends. *)
Fixpoint contiguousFrom (from : nat) (toks : list Token) : Prop :=
  match toks with
  | [] => True
  | tok :: rest =>
      start (location tok) = from /\ contiguousFrom (end_ (location tok)) rest
  end.

(** The offset at which a list of tokens ends: the end of its last token,
    or [from] when it is empty. *)
Fixpoint tokensEnd (from : nat) (toks : list Token) : nat :=
  match toks with
  | [] => from
  | tok :: rest => tokensEnd (end_ (location tok)) rest
  end.

(* ===================================================================== *)
(** * A small grammar and its inputs, for the examples *)
(* ===================================================================== *)

Definition exampleTokens : Obj TokenDefinition :=
  [("Foo", TokenPattern (PatternString "foo"));
   ("Bar", TokenPattern (PatternString "bar"));
   ("Comma", TokenPattern (PatternString ","))].

(** [createGrammar({ tokens: {Foo: 'foo', Bar: 'bar', Comma: ','},
    rules: (_) => ({}) })], the grammar of the combinator tests. *)
Definition exampleGrammar : Grammar := createGrammar exampleTokens (fun _ => []).

(** The tokens of a source text of the example grammar. *)
Definition lexed (src : string) : list Token :=
  match Parser.tokenize exampleGrammar src (String.length src) with
  | Returned (Success toks) => toks
  | _ => []
  end.

(** The state and the helpers [Parser.parse] starts from on that text. *)
Definition startState (src : string) : ParserRuleInputState :=
  {| input := lexed src; source := src; currentIndex := 0 |}.

Definition helpersFor (src : string) : ParserRuleHelpers :=
  Parser.parseHelpers (lexed src) src.

(** The example grammar extended with a root rule for comma-separated
    lists of [Foo]: [extendGrammar(exampleGrammar,
    { Root: ($) => list(token(Foo), token(Comma)) })]. *)
Definition fooListGrammar : Grammar :=
  extendGrammar exampleGrammar
    [("Root", fun _ => Combinators.list (Combinators.token "Foo")
                         (Combinators.token "Comma") None)].

(** [createGrammar({ tokens: {A: 'a'},
    rules: (_) => ({ Item: ($) => token(_.A) }) })]. *)
Definition itemGrammar : Grammar :=
  createGrammar [("A", TokenPattern (PatternString "a"))]
    (fun _ => [("Item", fun _ => Combinators.token "A")]).

(** The rule map [{ Pair: ($) => sequence($.Item, $.Item) }]: its factory
    refers to the rule [Item] of the grammar it extends. *)
Definition pairRules : Obj ParserRuleFactory :=
  [("Pair", fun handle =>
              Combinators.sequence [getRule handle "Item"; getRule handle "Item"])].

(** [extendGrammar(itemGrammar, pairRules)]. *)
Definition pairGrammar : Grammar := extendGrammar itemGrammar pairRules.

(* ===================================================================== *)
(** * Further notions: repetitions, errors kept, lines and columns,
      escaped sources, declaration order *)
(* ===================================================================== *)

(** Successive applications of a rule, each of which advances
    [currentIndex]: [outs] lists their output states, every application
    starting where the one before it ended. *)
Fixpoint repetitions (r : ParserRule) (fuel : nat) (helpers : ParserRuleHelpers)
  (state : ParserRuleInputState) (outs : list ParserRuleOutputState) : Prop :=
  match outs with
  | [] => True
  | out :: outs' =>
      r fuel state helpers = Returned (Success out)
      /\ outputIndex out <> currentIndex state
      /\ repetitions r fuel helpers (inputState out) outs'
  end.

(** A repetition stops at the state: the rule fails there, or succeeds
    without advancing [currentIndex]. *)
Definition stopsAt (r : ParserRule) (fuel : nat) (helpers : ParserRuleHelpers)
  (state : ParserRuleInputState) : Prop :=
  match r fuel state helpers with
  | Returned (Error _) => True
  | Returned (Success out) => outputIndex out = currentIndex state
  | _ => False
  end.

(** [currentError] of [choice] after one more alternative failed with [e]:
    [e] replaces the error kept so far when it starts strictly further. *)
Definition furtherError (currentError : option (ParserRuleError * nat))
  (e : ParserRuleError) : option (ParserRuleError * nat) :=
  match currentError with
  | None => Some (e, errorStart e)
  | Some (_, index) =>
      if index <? errorStart e then Some (e, errorStart e) else currentError
  end.

(** The error of [furtherError currentError e]. *)
Definition keptError (currentError : option (ParserRuleError * nat))
  (e : ParserRuleError) : ParserRuleError :=
  match currentError with
  | None => e
  | Some (kept, index) => if index <? errorStart e then e else kept
  end.

(** The text has no carriage return: its line breaks are line feeds. *)
Fixpoint noCarriageReturn (text : string) : bool :=
  match text with
  | EmptyString => true
  | String c rest => negb (Ascii.eqb c "013"%char) && noCarriageReturn rest
  end.

(** The line and the column reached by reading [offset] characters of a
    text from a given line and column: a line feed begins a new line at
    column 1, any other character moves one column on. *)
Fixpoint locateFrom (text : string) (offset line column : nat) : SourceLocation :=
  match offset, text with
  | S offset', String c rest =>
      if Ascii.eqb c "010"%char then locateFrom rest offset' (S line) 1
      else locateFrom rest offset' line (S column)
  | _, _ => {| line := line; column := column |}
  end.

(** The line and the column of an offset of a text, both counted from 1. *)
Definition locate (text : string) (offset : nat) : SourceLocation :=
  locateFrom text offset 1 1.

(** The line ranges from a line that starts at [lineStart0], given the
    line breaks still to come. *)
Definition lineRangesFrom (lineStart0 : nat) (matches : list nat) (sourceLength : nat)
  : list SourceLineRange :=
  {| lineStart := lineStart0; lineEnd := hd sourceLength matches |}
    :: lineRangesAfter matches sourceLength.

(** The text has no line feed: it is one line. *)
Fixpoint noLineFeed (text : string) : bool :=
  match text with
  | EmptyString => true
  | String c rest => negb (Ascii.eqb c "010"%char) && noLineFeed rest
  end.

(** The tokens do not run backwards: each ends at or after its start. *)
Definition forwardTokens (toks : list Token) : Prop :=
  Forall (fun tok => start (location tok) <= end_ (location tok)) toks.

(** [REGEXP_SPECIAL_CHAR = /[.*+?^${}()|[\]\\]/], on one character. *)
Definition isRegExpSpecialChar (c : ascii) : bool :=
  existsb (Ascii.eqb c)
    ["."; "*"; "+"; "?"; "^"; "$"; "{"; "}"; "("; ")"; "|"; "["; "]"; "\"]%char.

(** [REGEXP_SPECIAL_CHAR.test(string)]. *)
Fixpoint hasRegExpSpecialChar (s : string) : bool :=
  match s with
  | EmptyString => false
  | String c rest => isRegExpSpecialChar c || hasRegExpSpecialChar rest
  end.

(** [string.replace(new RegExp(REGEXP_SPECIAL_CHAR, 'g'), '\\$&')]: a
    backslash is put before every special character. *)
Fixpoint escapeSpecialChars (s : string) : string :=
  match s with
  | EmptyString => EmptyString
  | String c rest =>
      if isRegExpSpecialChar c then String "\"%char (String c (escapeSpecialChars rest))
      else String c (escapeSpecialChars rest)
  end.

(** [escapeRegExpSource(string)]. *)
Definition escapeRegExpSource (s : string) : string :=
  if negb (hasRegExpSpecialChar s) then s else escapeSpecialChars s.

(** The text that a regular-expression source stands for when it is made of
    ordinary characters and of special characters each preceded by a
    backslash: such a source matches that text and nothing else.  A
    special character that is not escaped, or a backslash before an
    ordinary character, makes the source something else than a text
    ([None]). *)
Fixpoint literalOfSource (src : string) : option string :=
  match src with
  | EmptyString => Some EmptyString
  | String c rest =>
      if Ascii.eqb c "\"%char then
        match rest with
        | String c' rest' =>
            if isRegExpSpecialChar c' then option_map (String c') (literalOfSource rest')
            else None
        | EmptyString => None
        end
      else if isRegExpSpecialChar c then None
      else option_map (String c) (literalOfSource rest)
  end.

(** The terminal rules of a grammar description in declaration order,
    each with the token parser of its literal or pattern; and the names of
    its non-terminal rules in declaration order. *)
Fixpoint terminalParsers (rules : list SyntaxRuleNode) : list (TokenType * TokenParser) :=
  match rules with
  | [] => []
  | SyntaxTerminalRuleNode name body :: rest =>
      (name, parseTerminalToken body) :: terminalParsers rest
  | SyntaxNonTerminalRuleNode _ _ :: rest => terminalParsers rest
  end.

Fixpoint nonTerminalNames (rules : list SyntaxRuleNode) : list string :=
  match rules with
  | [] => []
  | SyntaxTerminalRuleNode _ _ :: rest => nonTerminalNames rest
  | SyntaxNonTerminalRuleNode name _ :: rest => name :: nonTerminalNames rest
  end.

(** The keys that an object keeps as the association lists of the model
    do.  Two kinds of keys are set apart.  An assignment
    [object[key] = value] with the key [__proto__] goes to the setter of
    the prototype and stores no entry.  And array indices ([0], [1],
    [42]...) are listed before the other keys of an object, in ascending
    order, whatever the order of insertion; every array index begins with
    a digit. *)
Definition isDecimalDigit (c : ascii) : bool :=
  (48 <=? nat_of_ascii c) && (nat_of_ascii c <=? 57).

Definition beginsWithDigit (s : string) : bool :=
  match s with
  | EmptyString => false
  | String c _ => isDecimalDigit c
  end.

Definition isOrdinaryKey (k : string) : bool :=
  negb (String.eqb k "__proto__") && negb (beginsWithDigit k).

(** The keys of the fields of a [struct], those with a [null] key left
    out. *)
Fixpoint fieldKeys (fields : list Combinators.StructFieldDescriptor) : list string :=
  match fields with
  | [] => []
  | f :: rest =>
      match Combinators.key f with
      | Some k => k :: fieldKeys rest
      | None => fieldKeys rest
      end
  end.

(** The grammar of the description [A ::= "a"], [<Items> ::= [A, A]], as
    [parseSyntaxGrammar] builds it. *)
Definition itemsSyntaxGrammar : SyntaxGrammar :=
  {| grammar :=
       createGrammar
         (fromEntries (tokenDefinitions (programRules uppercaseProgram)))
         (fun _ => fromEntries (ruleFactoryEntries (programRules uppercaseProgram)));
     rootNodeType := "Items" |}.

(* ===================================================================== *)
(** * Proof automation *)
(* ===================================================================== *)

(** From here on the combinators are used by their short names, except
    [Combinators.list]: [list] stays the type of lists. *)
Import Combinators.
Abbreviation list := Datatypes.list (only parsing).

(** Splits a conjunction into its conjuncts, and nothing else. *)
Ltac conjuncts := repeat match goal with |- _ /\ _ => split end.


(* ===================================================================== *)
(** * Properties *)
(* ===================================================================== *)

(** ** The rendering of error messages, on an example of the tests *)

Example formatErrorMessage_trailing_comma :
  formatErrorMessage "Expected end of input" "foo," (mkLocation 3 4)
  = ("Expected end of input at [1:4]" ++ newline ++ "1 |foo," ++ newline ++ "      ^")%string.
Proof. vm_compute. reflexivity. Qed.

(** ** Elementary facts about [Outcome] and the loops *)

Lemma bind_Returned {A B : Type} (m : Outcome A) (k : A -> Outcome B) (b : B) :
  bind m k = Returned b -> exists a, m = Returned a /\ k a = Returned b.
Proof.
  destruct m as [a | exn | ]; simpl; intros H; try discriminate.
  exists a. split; [reflexivity | exact H].
Qed.

Lemma bind_finished {A B : Type} (m : Outcome A) (k : A -> Outcome B) :
  finished m = true -> (forall a, m = Returned a -> finished (k a) = true) ->
  finished (bind m k) = true.
Proof.
  destruct m as [a | exn | ]; simpl; intros Hm Hk; auto.
Qed.

(** [push] either throws on a full array or appends. *)
Lemma arrayPush_Returned {A : Type} (array pushed : list A) (v : A) :
  arrayPush array v = Returned pushed ->
  pushed = array ++ [v] /\ (Z.of_nat (List.length array) < maxArrayLength)%Z.
Proof.
  unfold arrayPush.
  destruct (Z.leb_spec maxArrayLength (Z.of_nat (List.length array))) as [Hfull | Hroom];
    [discriminate |].
  intros H. injection H as <-. split; [reflexivity | exact Hroom].
Qed.

Lemma arrayPush_room {A : Type} (array : list A) (v : A) :
  (Z.of_nat (List.length array) < maxArrayLength)%Z ->
  arrayPush array v = Returned (array ++ [v]).
Proof.
  intros Hroom. unfold arrayPush.
  destruct (Z.leb_spec maxArrayLength (Z.of_nat (List.length array))) as [Hfull | _];
    [lia | reflexivity].
Qed.

Lemma arrayPush_full {A : Type} (array : list A) (v : A) :
  (maxArrayLength <= Z.of_nat (List.length array))%Z ->
  arrayPush array v = Thrown "RangeError: Invalid array length".
Proof.
  intros Hfull. unfold arrayPush.
  destruct (Z.leb_spec maxArrayLength (Z.of_nat (List.length array))) as [_ | Hroom];
    [reflexivity | lia].
Qed.

Lemma arrayPush_finished {A : Type} (array : list A) (v : A) :
  finished (arrayPush array v) = true.
Proof.
  unfold arrayPush.
  destruct (maxArrayLength <=? Z.of_nat (List.length array))%Z; reflexivity.
Qed.

(** The two repetition loops are the same loop. *)
Lemma oneOrMore_loop_eq n rule fuel helpers currentState values :
  oneOrMore_loop n rule fuel helpers currentState values
  = zeroOrMore_loop n rule fuel helpers currentState values.
Proof. reflexivity. Qed.

(** The loop of [zeroOrMore] never returns anything but the state and the
    values collected. *)
Lemma zeroOrMore_never_Error rule fuel state helpers e :
  zeroOrMore rule fuel state helpers <> Returned (Error e).
Proof.
  unfold zeroOrMore.
  destruct (zeroOrMore_loop fuel rule fuel helpers (withValue state VNull []) [])
    as [[currentState values] | exn | ]; simpl; discriminate.
Qed.

(** One iteration of the loop when the rule fails or does not advance. *)
Lemma zeroOrMore_loop_stops n rule fuel helpers currentState values :
  match rule fuel (inputState currentState) helpers with
  | Returned (Error _) => True
  | Returned (Success resultState) => outputIndex resultState = outputIndex currentState
  | _ => False
  end ->
  zeroOrMore_loop n rule fuel helpers currentState values
  = Returned (currentState, values).
Proof.
  intros H.
  destruct n; simpl;
    destruct (rule fuel (inputState currentState) helpers) as [[st | e] | exn | ];
    simpl; try contradiction; try reflexivity;
    rewrite H, Nat.eqb_refl; reflexivity.
Qed.


(* --------------------------------------------------------------------- *)
(** ** C9: [optional], [zeroOrMore], [text], [map] *)
(* --------------------------------------------------------------------- *)





(* --------------------------------------------------------------------- *)
(** ** C10: a zero-length success in [zeroOrMore] and in [oneOrMore] *)
(* --------------------------------------------------------------------- *)

(** C10.  When the inner rule [r] succeeds on the current state without
    advancing [currentIndex], [zeroOrMore r] stops and succeeds with the
    empty list (the value of the zero-length success is not included, and
    neither are its tokens), whereas [oneOrMore r] succeeds with the
    one-element list holding that value. *)
Theorem zero_length_first_match
  (r : ParserRule) (fuel : nat) (state : ParserRuleInputState)
  (helpers : ParserRuleHelpers) (st : ParserRuleOutputState) :
  r fuel state helpers = Returned (Success st) ->
  outputIndex st = currentIndex state ->
  zeroOrMore r fuel state helpers
  = Returned (Success (withValue state (VArray []) []))
  /\ oneOrMore r fuel state helpers
     = Returned (Success (withValue (inputState st) (VArray [value st]) (tokens st))).
Proof.
  intros Hr Hidx. split.
  - unfold zeroOrMore. rewrite zeroOrMore_loop_stops.
    + reflexivity.
    + simpl. rewrite Hr. exact Hidx.
  - unfold oneOrMore. rewrite Hr. simpl. rewrite Hidx, Nat.eqb_refl. reflexivity.
Qed.

(** The hypotheses of C10 hold for [optional(token(Foo))] on the text
    [bar]: it succeeds with [null] without advancing. *)
Lemma zero_length_first_match_witness :
  zeroOrMore (optional (token "Foo")) 0 (startState "bar") (helpersFor "bar")
  = Returned (Success (withValue (startState "bar") (VArray []) []))
  /\ oneOrMore (optional (token "Foo")) 0 (startState "bar") (helpersFor "bar")
     = Returned (Success (withValue (startState "bar") (VArray [VNull]) [])).
Proof.
  apply (zero_length_first_match (optional (token "Foo")) 0 (startState "bar")
           (helpersFor "bar") (withValue (startState "bar") VNull []));
    reflexivity.
Defined.

(* --------------------------------------------------------------------- *)
(** ** C8: a failure leaves the caller's state as it was *)
(* --------------------------------------------------------------------- *)

(** [sequence] threads the state through its elements and stops at the
    first failure, which it returns as it is. *)
Lemma sequence_loop_failure (before : list ParserRule) (r : ParserRule)
  (after : list ParserRule) fuel helpers state values consumed mid e :
  sequence_loop before fuel helpers state values consumed = Returned (Success mid) ->
  r fuel (inputState mid) helpers = Returned (Error e) ->
  sequence_loop (before ++ r :: after) fuel helpers state values consumed
  = Returned (Error e).
Proof.
  revert state values consumed.
  induction before as [| b before IH]; intros state values consumed Hbefore Hr; simpl in *.
  - injection Hbefore as <-. simpl in Hr. rewrite Hr. reflexivity.
  - destruct (b fuel state helpers) as [[st | e'] | exn | ]; simpl in *;
      try discriminate.
    apply IH; assumption.
Qed.

(** C8.  A failure is a [ParserRuleError]: a message and a location, and no
    parser state ([ParserRuleResult]).  For every rule [r] -- in particular
    every combinator of the algebra -- that fails on a state: the
    combinators that go on after a failure go on from that very state
    ([optional] and [zeroOrMore] succeed with the tokens, the source and
    the [currentIndex] they were given; [choice] applies its remaining
    alternatives to it); the others return the failure as it is; and a
    [sequence] whose earlier elements succeeded, whatever they consumed,
    fails with the failure of [r], so that [optional] around it resumes at
    the [currentIndex] the sequence started from. *)
Theorem failure_leaves_state_unchanged
  (r : ParserRule) (fuel : nat) (state : ParserRuleInputState)
  (helpers : ParserRuleHelpers) (e : ParserRuleError) :
  r fuel state helpers = Returned (Error e) ->
  optional r fuel state helpers = Returned (Success (withValue state VNull []))
  /\ zeroOrMore r fuel state helpers
     = Returned (Success (withValue state (VArray []) []))
  /\ (forall alternatives,
        choice (r :: alternatives) fuel state helpers
        = choice_loop alternatives fuel state helpers
            (Some (e, start (errorLocation e))))
  /\ oneOrMore r fuel state helpers = Returned (Error e)
  /\ (forall f, map r f fuel state helpers = Returned (Error e))
  /\ text r fuel state helpers = Returned (Error e)
  /\ (forall nodeType, node nodeType r fuel state helpers = Returned (Error e))
  /\ (forall (before after : list ParserRule) state0 mid,
        sequence before fuel state0 helpers = Returned (Success mid) ->
        inputState mid = state ->
        sequence (before ++ r :: after) fuel state0 helpers = Returned (Error e)
        /\ optional (sequence (before ++ r :: after)) fuel state0 helpers
           = Returned (Success (withValue state0 VNull []))).
Proof.
  intros H. conjuncts.
  - unfold optional. rewrite H. reflexivity.
  - unfold zeroOrMore. rewrite zeroOrMore_loop_stops.
    + reflexivity.
    + simpl. rewrite H. exact I.
  - intros alternatives. unfold choice. simpl. rewrite H. reflexivity.
  - unfold oneOrMore. rewrite H. reflexivity.
  - intros f. unfold map. rewrite H. reflexivity.
  - unfold text. rewrite H. reflexivity.
  - intros nodeType. unfold node. rewrite H. reflexivity.
  - intros before after state0 mid Hbefore Hmid.
    assert (Hseq : sequence (before ++ r :: after) fuel state0 helpers
                   = Returned (Error e)).
    { unfold sequence.
      apply (sequence_loop_failure before r after fuel helpers state0 [] [] mid e);
        [exact Hbefore | subst state; exact H]. }
    split; [exact Hseq |].
    unfold optional. rewrite Hseq. reflexivity.
Qed.

(** C8 on the text [foofoo]: [token(Bar)] fails on the second token after
    [token(Foo)] consumed the first; the sequence fails with that error
    and [optional] around it resumes at index 0. *)
Lemma failure_leaves_state_unchanged_witness :
  sequence [token "Foo"; token "Bar"] 0 (startState "foofoo") (helpersFor "foofoo")
  = Returned (Error (mkParserRuleError "Expected token: Bar" (mkLocation 3 6)))
  /\ optional (sequence [token "Foo"; token "Bar"]) 0
       (startState "foofoo") (helpersFor "foofoo")
     = Returned (Success (withValue (startState "foofoo") VNull [])).
Proof.
  destruct (failure_leaves_state_unchanged (token "Bar") 0
              (withCurrentIndex (startState "foofoo") 1) (helpersFor "foofoo")
              (mkParserRuleError "Expected token: Bar" (mkLocation 3 6))
              eq_refl) as (_ & _ & _ & _ & _ & _ & _ & H).
  apply (H [token "Foo"] [] (startState "foofoo")
           (withValue (withCurrentIndex (startState "foofoo") 1)
              (VArray [VToken (mkToken "Foo" (mkLocation 0 3))])
              [mkToken "Foo" (mkLocation 0 3)]));
    reflexivity.
Defined.

(* --------------------------------------------------------------------- *)
(** ** C4: [choice] *)
(* --------------------------------------------------------------------- *)

Lemma furthestEarliest_later seen k b e :
  furthestEarliest seen k b -> errorStart b < errorStart e ->
  furthestEarliest (seen ++ [e]) (List.length seen) e.
Proof.
  intros (Hk & Hmax & Hfirst) Hlt. unfold furthestEarliest. conjuncts.
  - rewrite nth_error_app2, Nat.sub_diag by lia. reflexivity.
  - intros j e' Hj.
    destruct (Nat.lt_ge_cases j (List.length seen)) as [Hin | Hout].
    + rewrite nth_error_app1 in Hj by assumption.
      specialize (Hmax j e' Hj). lia.
    + rewrite nth_error_app2 in Hj by assumption.
      destruct (j - List.length seen) as [| n]; simpl in Hj.
      * injection Hj as <-. lia.
      * destruct n; discriminate.
  - intros j e' Hlen Hj.
    rewrite nth_error_app1 in Hj by assumption.
    specialize (Hmax j e' Hj). lia.
Qed.

Lemma furthestEarliest_kept seen k b e :
  furthestEarliest seen k b -> errorStart e <= errorStart b ->
  furthestEarliest (seen ++ [e]) k b.
Proof.
  intros (Hk & Hmax & Hfirst) Hle.
  assert (Hlen : k < List.length seen).
  { apply nth_error_Some. rewrite Hk. discriminate. }
  unfold furthestEarliest. conjuncts.
  - rewrite nth_error_app1 by assumption. exact Hk.
  - intros j e' Hj.
    destruct (Nat.lt_ge_cases j (List.length seen)) as [Hin | Hout].
    + rewrite nth_error_app1 in Hj by assumption. exact (Hmax j e' Hj).
    + rewrite nth_error_app2 in Hj by assumption.
      destruct (j - List.length seen) as [| n]; simpl in Hj.
      * injection Hj as <-. exact Hle.
      * destruct n; discriminate.
  - intros j e' Hjk Hj.
    rewrite nth_error_app1 in Hj by lia. exact (Hfirst j e' Hjk Hj).
Qed.

(** The loop of [choice] over alternatives that all fail: [currentError]
    is the furthest, earliest error of those seen, and stays so. *)
Lemma choice_loop_all_fail fuel state helpers
  (rules : list ParserRule) (errors : list ParserRuleError) :
  Forall2 (fun r e => r fuel state helpers = Returned (Error e)) rules errors ->
  forall seen k b,
    furthestEarliest seen k b ->
    exists k' b',
      furthestEarliest (seen ++ errors) k' b'
      /\ choice_loop rules fuel state helpers (Some (b, errorStart b))
         = Returned (Error b').
Proof.
  induction 1 as [| r e rules errors Hr Hrest IH]; intros seen k b Hbest.
  - exists k, b. rewrite app_nil_r. split; [exact Hbest | reflexivity].
  - simpl. rewrite Hr. simpl. fold (errorStart e).
    replace (seen ++ e :: errors) with ((seen ++ [e]) ++ errors)
      by (rewrite <- app_assoc; reflexivity).
    destruct (Nat.ltb_spec (errorStart b) (errorStart e)) as [Hlt | Hge].
    + apply (IH (seen ++ [e]) (List.length seen) e).
      exact (furthestEarliest_later seen k b e Hbest Hlt).
    + apply (IH (seen ++ [e]) k b).
      exact (furthestEarliest_kept seen k b e Hbest Hge).
Qed.

(** The loop of [choice] returns the first success; the alternatives after
    it are not applied. *)
Lemma choice_loop_first_success fuel state helpers
  (failing : list ParserRule) (r : ParserRule) (later : list ParserRule) st :
  Forall (fun r' => exists e, r' fuel state helpers = Returned (Error e)) failing ->
  r fuel state helpers = Returned (Success st) ->
  forall currentError,
    choice_loop (failing ++ r :: later) fuel state helpers currentError
    = Returned (Success st).
Proof.
  intros Hfailing Hr.
  induction Hfailing as [| r' failing [e He] _ IH]; intros currentError; simpl.
  - rewrite Hr. reflexivity.
  - rewrite He. simpl. apply IH.
Qed.

(** C4.  When every alternative of [choice(r1, ..., rn)], [n >= 1], fails
    on the state, the error returned is one of the alternatives' errors;
    its [location.start] is the greatest among them; and it is the error
    of the earliest alternative, in the order given, whose failure starts
    there.  When some alternative succeeds, the result is the success of
    the first one that does, and it does not depend on the alternatives
    after it: they are not applied. *)
Theorem choice_furthest_error_first_success
  (fuel : nat) (state : ParserRuleInputState) (helpers : ParserRuleHelpers) :
  (forall (rules : list ParserRule) (errors : list ParserRuleError),
      rules <> [] ->
      Forall2 (fun r e => r fuel state helpers = Returned (Error e)) rules errors ->
      exists k e,
        furthestEarliest errors k e
        /\ choice rules fuel state helpers = Returned (Error e))
  /\ (forall (failing : list ParserRule) (r : ParserRule)
             (later : list ParserRule) (st : ParserRuleOutputState),
        Forall (fun r' => exists e, r' fuel state helpers = Returned (Error e))
               failing ->
        r fuel state helpers = Returned (Success st) ->
        choice (failing ++ r :: later) fuel state helpers = Returned (Success st)).
Proof.
  split.
  - intros rules errors Hne Hall.
    destruct Hall as [| r e rules errors Hr Hrest]; [contradiction |].
    unfold choice. simpl. rewrite Hr. simpl. fold (errorStart e).
    apply (choice_loop_all_fail fuel state helpers rules errors Hrest [e] 0 e).
    unfold furthestEarliest. conjuncts.
    + reflexivity.
    + intros j e' Hj. destruct j as [| j]; simpl in Hj.
      * injection Hj as <-. lia.
      * destruct j; discriminate.
    + intros j e' Hj. lia.
  - intros failing r later st Hfailing Hr. unfold choice.
    apply choice_loop_first_success; assumption.
Qed.

(** C4 on the text [barfoo]: of [Foo Foo | Bar Bar | Bar Comma] the first
    alternative fails at offset 0 and the other two at offset 3; the error
    returned is that of the second.  And [choice(Foo, Bar, undefined)]
    returns the success of [Bar] without calling its last alternative. *)
Lemma choice_furthest_error_first_success_witness :
  choice [sequence [token "Foo"; token "Foo"];
          sequence [token "Bar"; token "Bar"];
          sequence [token "Bar"; token "Comma"]] 0
    (startState "barfoo") (helpersFor "barfoo")
  = Returned (Error (mkParserRuleError "Expected token: Bar" (mkLocation 3 6)))
  /\ choice [token "Foo"; token "Bar"; undefinedRule] 0
       (startState "barfoo") (helpersFor "barfoo")
     = Returned (Success
         (withValue (withCurrentIndex (startState "barfoo") 1)
            (VToken (mkToken "Bar" (mkLocation 0 3)))
            [mkToken "Bar" (mkLocation 0 3)])).
Proof.
  destruct (choice_furthest_error_first_success 0 (startState "barfoo")
              (helpersFor "barfoo")) as [Hfail Hsucc].
  split.
  - destruct (Hfail
        [sequence [token "Foo"; token "Foo"];
         sequence [token "Bar"; token "Bar"];
         sequence [token "Bar"; token "Comma"]]
        [mkParserRuleError "Expected token: Foo" (mkLocation 0 3);
         mkParserRuleError "Expected token: Bar" (mkLocation 3 6);
         mkParserRuleError "Expected token: Comma" (mkLocation 3 6)])
      as (k & e & (Hk & Hmax & Hfirst) & Hchoice).
    + discriminate.
    + repeat constructor.
    + rewrite Hchoice.
      destruct k as [| [| [| k]]]; simpl in Hk.
      * injection Hk as <-.
        specialize (Hmax 1 _ eq_refl). unfold errorStart in Hmax. simpl in Hmax. lia.
      * injection Hk as <-. reflexivity.
      * injection Hk as <-.
        specialize (Hfirst 1 _ (Nat.lt_succ_diag_r 1) eq_refl).
        unfold errorStart in Hfirst. simpl in Hfirst. lia.
      * destruct k; discriminate.
  - apply (Hsucc [token "Foo"] (token "Bar") [undefinedRule]).
    + repeat constructor.
      exists (mkParserRuleError "Expected token: Foo" (mkLocation 0 3)). reflexivity.
    + reflexivity.
Defined.

(* --------------------------------------------------------------------- *)
(** ** C6: the evaluator driver and the end of the input *)
(* --------------------------------------------------------------------- *)

(** C6.  For every grammar, root node type, token stream and source,
    [Parser.parse] returns a success only if the root rule succeeds and the
    [currentIndex] it ends at is the length of the token stream (the value
    returned is then the rule's value); and if the root rule succeeds with
    tokens left, [Parser.parse] fails with the [ParseError] of message
    "Expected end of input" at the location of the first token left.  The
    [message] property of that error begins with these words (the line, the
    column and a snippet of the source follow) and its [location] is the
    location given. *)
Theorem driver_requires_end_of_input
  (grammar : Grammar) (input : list Token) (source : string)
  (rootNodeType : AstNodeType) (fuel : nat) :
  (forall root,
      Parser.parse grammar input source rootNodeType fuel = Returned (Success root) ->
      exists rootRule resultState,
        objGet rootNodeType (rules grammar) = Some rootRule
        /\ rootRule fuel (mkInputState input source 0) (Parser.parseHelpers input source)
           = Returned (Success resultState)
        /\ outputIndex resultState = List.length input
        /\ root = value resultState)
  /\ (forall rootRule resultState,
        objGet rootNodeType (rules grammar) = Some rootRule ->
        rootRule fuel (mkInputState input source 0) (Parser.parseHelpers input source)
        = Returned (Success resultState) ->
        outputIndex resultState < List.length input ->
        exists nextToken,
          nth_error input (outputIndex resultState) = Some nextToken
          /\ Parser.parse grammar input source rootNodeType fuel
             = Returned (Error
                 (newParseError "Expected end of input" source (location nextToken))))
  /\ (forall loc,
        parseErrorLocation (newParseError "Expected end of input" source loc) = loc
        /\ exists rest,
             parseErrorMessage (newParseError "Expected end of input" source loc)
             = ("Expected end of input" ++ rest)%string).
Proof.
  conjuncts.
  - intros root H. unfold Parser.parse in H.
    destruct (objGet rootNodeType (rules grammar)) as [rootRule |]; [| discriminate].
    destruct (rootRule fuel (mkInputState input source 0)
                (Parser.parseHelpers input source))
      as [[resultState | e] | exn | ] eqn:Hrule; simpl in H; try discriminate.
    destruct (outputIndex resultState =? List.length input) eqn:Hend; simpl in H.
    + injection H as <-. apply Nat.eqb_eq in Hend.
      exists rootRule, resultState. auto.
    + destruct (nth_error input (outputIndex resultState)); discriminate.
  - intros rootRule resultState Hget Hrule Hleft. unfold Parser.parse.
    rewrite Hget, Hrule. simpl.
    destruct (Nat.eqb_spec (outputIndex resultState) (List.length input)) as [Heq | _];
      [lia |]. simpl.
    destruct (nth_error input (outputIndex resultState)) as [nextToken |] eqn:Hnth.
    + exists nextToken. split; reflexivity.
    + apply nth_error_None in Hnth. lia.
  - intros loc. split; [reflexivity |].
    unfold newParseError, formatErrorMessage. simpl. eexists. reflexivity.
Qed.

(** C6 on the grammar of comma-separated [Foo]s: the text [foo,] is
    rejected at its trailing comma, which the root rule leaves unconsumed. *)
Lemma driver_requires_end_of_input_witness :
  Parser.parse fooListGrammar (lexed "foo,") "foo," "Root" 1
  = Returned (Error (newParseError "Expected end of input" "foo," (mkLocation 3 4))).
Proof.
  destruct (driver_requires_end_of_input fooListGrammar (lexed "foo,") "foo," "Root" 1)
    as (_ & H & _).
  destruct (H (createLazyRuleAccessor
                 [("Root", fun _ => Combinators.list (token "Foo") (token "Comma") None)]
                 "Root")
              (withValue (withCurrentIndex (startState "foo,") 1)
                 (VArray [VToken (mkToken "Foo" (mkLocation 0 3))])
                 [mkToken "Foo" (mkLocation 0 3)]))
    as (nextToken & Hnth & Hparse).
  - reflexivity.
  - reflexivity.
  - vm_compute. lia.
  - rewrite Hparse. vm_compute in Hnth. injection Hnth as <-. reflexivity.
Defined.

(* --------------------------------------------------------------------- *)
(** ** C5: termination of [zeroOrMore] and [oneOrMore] *)
(* --------------------------------------------------------------------- *)

Lemma parseHelpers_readsFrom (tokens : list Token) (source : string) :
  readsFrom tokens (Parser.parseHelpers tokens source).
Proof.
  intros index tok H. simpl in H.
  destruct (Nat.leb_spec (List.length tokens) index) as [Hle | Hlt];
    [discriminate | exact Hlt].
Qed.

Lemma token_movesWithin tokens tokenType fuel helpers :
  readsFrom tokens helpers -> movesWithin tokens (token tokenType) fuel helpers.
Proof.
  intros Hreads state st Hinput H. unfold token in H.
  destruct (readToken helpers (currentIndex state)) as [tok |] eqn:Hread;
    [| discriminate].
  destruct (isTokenType helpers tok tokenType); [| discriminate].
  injection H as <-. apply Hreads in Hread.
  unfold outputIndex. simpl. conjuncts; [exact Hinput | lia | lia].
Qed.

Lemma token_finished tokenType fuel state helpers :
  finished (token tokenType fuel state helpers) = true.
Proof.
  unfold token.
  destruct (readToken helpers (currentIndex state)) as [tok |];
    [destruct (isTokenType helpers tok tokenType) |]; reflexivity.
Qed.

(** *** Rules built from the combinators move within the token stream *)

Section MovesWithin.

Variable stream : list Token.
Variable helpers : ParserRuleHelpers.
Variable fuel : nat.


Lemma eof_movesWithin : movesWithin stream eof fuel helpers.
Proof.
  intros state st Hinput H. unfold eof in H.
  destruct (readToken helpers (currentIndex state)); [discriminate |].
  injection H as <-. unfold outputIndex. simpl.
  conjuncts; [exact Hinput | lia | lia].
Qed.










Lemma zeroOrMore_loop_movesWithin r :
  movesWithin stream r fuel helpers ->
  forall n currentState values final values',
    input (inputState currentState) = stream ->
    zeroOrMore_loop n r fuel helpers currentState values = Returned (final, values') ->
    input (inputState final) = stream
    /\ outputIndex currentState <= outputIndex final
    /\ outputIndex final <= Nat.max (outputIndex currentState) (List.length stream).
Proof.
  intros Hr.
  induction n as [| n IH]; intros currentState values final values' Hinput H;
    simpl in H;
    destruct (r fuel (inputState currentState) helpers)
      as [[resultState | e] | exn | ] eqn:E; simpl in H; try discriminate;
    try (injection H as <- <-; conjuncts; [exact Hinput | lia | lia]);
    destruct (Nat.eqb_spec (outputIndex resultState) (outputIndex currentState))
      as [Heq | Hneq]; try discriminate;
    try (injection H as <- <-; conjuncts; [exact Hinput | lia | lia]);
    destruct (arrayPush values (value resultState)) as [pushed | exn | ];
    simpl in H; try discriminate.
  destruct (Hr _ _ Hinput E) as (Hsame & Hge & Hle).
  apply IH in H; [| exact Hsame]. destruct H as (Hsame' & Hge' & Hle').
  unfold outputIndex in *. simpl in *. conjuncts; [exact Hsame' | lia | lia].
Qed.


End MovesWithin.

Lemma oneOrMore_movesWithin stream helpers fuel r :
  movesWithin stream r fuel helpers -> movesWithin stream (oneOrMore r) fuel helpers.
Proof.
  intros Hr state st Hinput H. unfold oneOrMore in H.
  destruct (r fuel state helpers) as [[firstResultState | e] | exn | ] eqn:E;
    simpl in H; try discriminate.
  destruct (Hr _ _ Hinput E) as (Hsame & Hge & Hle).
  destruct (outputIndex firstResultState =? currentIndex state).
  - injection H as <-. unfold outputIndex in *. simpl.
    conjuncts; [exact Hsame | lia | lia].
  - destruct fuel as [| n]; [discriminate |]. rewrite oneOrMore_loop_eq in H.
    destruct (zeroOrMore_loop n r (S n) helpers
                (withValue (inputState firstResultState) VNull (tokens firstResultState))
                [value firstResultState])
      as [[final values'] | exn | ] eqn:Eloop; simpl in H; try discriminate.
    injection H as <-.
    apply (zeroOrMore_loop_movesWithin stream helpers (S n) r Hr) in Eloop;
      [| exact Hsame].
    destruct Eloop as (Hsame' & Hge' & Hle').
    unfold outputIndex in *. simpl in *. conjuncts; [exact Hsame' | lia | lia].
Qed.









Section Lowering.

Variable stream : list Token.
Variable helpers : ParserRuleHelpers.
Hypothesis helpers_readsFrom : readsFrom stream helpers.







End Lowering.

(** *** Termination *)

(** Whatever the rule does, the loop finishes within as many further
    iterations as the array of values has room for elements: an iteration
    that does not stop the loop pushes a value. *)
Lemma zeroOrMore_loop_always_finishes (r : ParserRule) (fuel : nat)
  (helpers : ParserRuleHelpers) :
  (forall s, finished (r fuel s helpers) = true) ->
  forall n currentState values,
    (maxArrayLength - Z.of_nat (List.length values) <= Z.of_nat n)%Z ->
    finished (zeroOrMore_loop n r fuel helpers currentState values) = true.
Proof.
  intros Hfinished.
  induction n as [| n IH]; intros currentState values Hroom; simpl;
    (apply bind_finished; [apply Hfinished |]);
    intros [resultState | e] Hr; try reflexivity;
    destruct (outputIndex resultState =? outputIndex currentState);
    try reflexivity.
  - rewrite arrayPush_full by lia. reflexivity.
  - apply bind_finished; [apply arrayPush_finished |].
    intros pushed Hpush. apply arrayPush_Returned in Hpush.
    destruct Hpush as [-> Hlength]. apply IH.
    rewrite length_app. cbn [List.length]. lia.
Qed.

(** C5.  For every inner rule [r] every application of which finishes,
    [zeroOrMore r] and [oneOrMore r] finish, given a budget of as many
    iterations as an array has room for elements.  The loops stop as soon
    as [r] fails or succeeds without advancing [currentIndex], whatever is
    left of the budget, so that a rule with zero-length successes stops
    them at once; and an iteration that does not stop the loop pushes a
    value onto an array, which a rule that always advances fills up:
    [push] then throws. *)
Theorem repetition_finishes (r : ParserRule) (fuel : nat)
  (helpers : ParserRuleHelpers) (state : ParserRuleInputState) :
  (forall s, finished (r fuel s helpers) = true) ->
  (maxArrayLength <= Z.of_nat fuel)%Z ->
  finished (zeroOrMore r fuel state helpers) = true
  /\ finished (oneOrMore r fuel state helpers) = true
  /\ (forall n currentState values,
        match r fuel (inputState currentState) helpers with
        | Returned (Error _) => True
        | Returned (Success resultState) =>
            outputIndex resultState = outputIndex currentState
        | _ => False
        end ->
        zeroOrMore_loop n r fuel helpers currentState values
        = Returned (currentState, values)
        /\ oneOrMore_loop n r fuel helpers currentState values
           = Returned (currentState, values)).
Proof.
  intros Hfinished Hfuel. conjuncts.
  - unfold zeroOrMore. apply bind_finished.
    + apply zeroOrMore_loop_always_finishes; [exact Hfinished | cbn [List.length]; lia].
    + intros [currentState values] _. reflexivity.
  - unfold oneOrMore. apply bind_finished; [apply Hfinished |].
    intros [firstResultState | e] Hfirst; [| reflexivity].
    destruct (outputIndex firstResultState =? currentIndex state); [reflexivity |].
    destruct fuel as [| n]; [unfold maxArrayLength in Hfuel; simpl in Hfuel; lia |].
    apply bind_finished.
    + rewrite oneOrMore_loop_eq.
      apply zeroOrMore_loop_always_finishes; [exact Hfinished |].
      cbn [List.length]. lia.
    + intros [currentState values] _. reflexivity.
  - intros n currentState values Hstop.
    split; [| rewrite oneOrMore_loop_eq]; apply zeroOrMore_loop_stops; exact Hstop.
Qed.

(** C5 for [skipOne], which succeeds and advances on every state: both
    repetitions of it finish. *)
Lemma repetition_finishes_witness :
  finished (zeroOrMore skipOne (Z.to_nat maxArrayLength) (startState "") (helpersFor ""))
  = true
  /\ finished (oneOrMore skipOne (Z.to_nat maxArrayLength) (startState "")
                 (helpersFor ""))
     = true.
Proof.
  destruct (repetition_finishes skipOne (Z.to_nat maxArrayLength) (helpersFor "")
              (startState "")) as (Hzero & Hone & _).
  - intros s. reflexivity.
  - rewrite Z2Nat.id; [lia | unfold maxArrayLength; lia].
  - split; [exact Hzero | exact Hone].
Defined.

(** They finish by an exception: the loop of a repetition of [skipOne]
    fills the array of values, and [push] throws. *)
Lemma zeroOrMore_loop_skipOne fuel helpers n :
  forall currentState values,
    (maxArrayLength - Z.of_nat (List.length values) <= Z.of_nat n)%Z ->
    zeroOrMore_loop n skipOne fuel helpers currentState values
    = Thrown "RangeError: Invalid array length".
Proof.
  induction n as [| n IH]; intros currentState values Hroom; simpl;
    unfold outputIndex; simpl;
    destruct (Nat.eqb_spec (currentIndex (inputState currentState) + 1)
                           (currentIndex (inputState currentState))) as [Heq | _];
    try lia.
  - rewrite arrayPush_full by lia. reflexivity.
  - destruct (Z.leb_spec maxArrayLength (Z.of_nat (List.length values)))
      as [Hfull | Hlength].
    + rewrite arrayPush_full by exact Hfull. reflexivity.
    + rewrite arrayPush_room by exact Hlength. simpl. apply IH.
      rewrite length_app. cbn [List.length]. lia.
Qed.

Lemma repetition_of_skipOne_throws fuel state helpers :
  (maxArrayLength <= Z.of_nat fuel)%Z ->
  zeroOrMore skipOne fuel state helpers = Thrown "RangeError: Invalid array length"
  /\ oneOrMore skipOne fuel state helpers = Thrown "RangeError: Invalid array length".
Proof.
  intros Hfuel. split.
  - unfold zeroOrMore. rewrite zeroOrMore_loop_skipOne by (cbn [List.length]; lia). reflexivity.
  - unfold oneOrMore, skipOne at 1. simpl. unfold outputIndex. simpl.
    destruct (Nat.eqb_spec (currentIndex state + 1) (currentIndex state)) as [Heq | _];
      [lia |].
    destruct fuel as [| n]; [unfold maxArrayLength in Hfuel; simpl in Hfuel; lia |].
    rewrite oneOrMore_loop_eq, zeroOrMore_loop_skipOne; [reflexivity |].
    cbn [List.length]. lia.
Qed.

(** *** Within the token stream *)

(** The loop finishes within as many further iterations as there are
    tokens left, when the rule finishes and moves within the stream. *)
Lemma zeroOrMore_loop_finishes (tokens : list Token) (r : ParserRule) (fuel : nat)
  (helpers : ParserRuleHelpers) :
  movesWithin tokens r fuel helpers ->
  (forall s, finished (r fuel s helpers) = true) ->
  forall n currentState values,
    input (inputState currentState) = tokens ->
    List.length tokens - outputIndex currentState <= n ->
    finished (zeroOrMore_loop n r fuel helpers currentState values) = true.
Proof.
  intros Hmoves Hfinished.
  induction n as [| n IH]; intros currentState values Hinput Hleft; simpl;
    (apply bind_finished; [apply Hfinished |]);
    intros [resultState | e] Hr; try reflexivity;
    destruct (Nat.eqb_spec (outputIndex resultState) (outputIndex currentState))
      as [Heq | Hneq]; try reflexivity;
    destruct (Hmoves _ _ Hinput Hr) as (Hsame & Hge & Hle);
    unfold outputIndex in *.
  - lia.
  - apply bind_finished; [apply arrayPush_finished |].
    intros pushed _. apply IH; simpl; [exact Hsame | lia].
Qed.

(** For every inner rule [r] that finishes on every state and whose
    successes move within the token stream ([movesWithin]: never
    backwards, never past the end), [zeroOrMore r] and [oneOrMore r]
    finish within a budget of as many iterations as there are tokens left:
    each iteration either stops the loop -- [r] failed, or succeeded
    without advancing [currentIndex] -- or advances [currentIndex]. *)
Theorem repetition_terminates (tokens : list Token) (r : ParserRule) (fuel : nat)
  (helpers : ParserRuleHelpers) (state : ParserRuleInputState) :
  movesWithin tokens r fuel helpers ->
  (forall s, finished (r fuel s helpers) = true) ->
  input state = tokens ->
  List.length tokens - currentIndex state <= fuel ->
  finished (zeroOrMore r fuel state helpers) = true
  /\ finished (oneOrMore r fuel state helpers) = true.
Proof.
  intros Hmoves Hfinished Hinput Hfuel. split.
  - unfold zeroOrMore. apply bind_finished.
    + apply (zeroOrMore_loop_finishes tokens); assumption.
    + intros [currentState values] _. reflexivity.
  - unfold oneOrMore. apply bind_finished; [apply Hfinished |].
    intros [firstResultState | e] Hfirst; [| reflexivity].
    destruct (Nat.eqb_spec (outputIndex firstResultState) (currentIndex state))
      as [Heq | Hneq]; [reflexivity |].
    destruct (Hmoves _ _ Hinput Hfirst) as (Hsame & Hge & Hle).
    destruct fuel as [| n]; [lia |].
    apply bind_finished.
    + rewrite oneOrMore_loop_eq.
      apply (zeroOrMore_loop_finishes tokens); try assumption.
      unfold outputIndex in *. simpl. lia.
    + intros [currentState values] _. reflexivity.
Qed.

(** [token(Foo)] on the text [foo,foo]: the hypotheses hold with a budget
    of three iterations, and both repetitions finish. *)
Lemma repetition_terminates_witness :
  finished (zeroOrMore (token "Foo") 3 (startState "foo,foo") (helpersFor "foo,foo"))
  = true
  /\ finished (oneOrMore (token "Foo") 3 (startState "foo,foo") (helpersFor "foo,foo"))
     = true.
Proof.
  apply (repetition_terminates (lexed "foo,foo") (token "Foo") 3
           (helpersFor "foo,foo") (startState "foo,foo")).
  - apply token_movesWithin. apply parseHelpers_readsFrom.
  - intros s. apply token_finished.
  - reflexivity.
  - vm_compute. lia.
Defined.

(* --------------------------------------------------------------------- *)
(** ** C2: the lexer *)
(* --------------------------------------------------------------------- *)

(** The parsers of declared patterns, tried in order from a position: the
    first pattern that matches there gives the token. *)
Lemma tryTokenParsers_firstMatch patterns input index :
  Parser.tryTokenParsers (patternParsers patterns) input index index
  = match firstMatch patterns input index with
    | Some (tokenType, lastIndex) =>
        Some (mkToken tokenType (mkLocation index lastIndex), lastIndex)
    | None => None
    end.
Proof.
  induction patterns as [| [tokenType pattern] rest IH]; simpl; [reflexivity |].
  unfold createTokenParser, patternMatch.
  destruct pattern as [text | re]; simpl.
  - destruct (literalRegExp text input index); simpl; [reflexivity | exact IH].
  - destruct (re input index); simpl; [reflexivity | exact IH].
Qed.

(** One iteration of the lexer.  For every list of declared patterns and
    every source string, at a position before the end of the source the
    lexer tries the patterns in declaration order, anchored at the
    position; the first pattern that matches there is accepted, whatever
    the length of its match: the token
    [{type, location: [currentIndex, lastIndex)}] is emitted and the lexer
    goes on from [lastIndex]; if no pattern matches, tokenization fails
    with the [ParseError] of message "Unrecognized token" and location
    [[currentIndex, currentIndex + 1)]. *)
Theorem tokenize_accepts_first_match
  (patterns : list (TokenType * Pattern)) (input : string)
  (tokens : list Token) (currentIndex n : nat) :
  currentIndex < String.length input ->
  Parser.tokenize_loop (S n) (patternParsers patterns) input tokens currentIndex
  = match firstMatch patterns input currentIndex with
    | Some (tokenType, lastIndex) =>
        Parser.tokenize_loop n (patternParsers patterns) input
          (tokens ++ [mkToken tokenType (mkLocation currentIndex lastIndex)])
          lastIndex
    | None =>
        Returned (Error
          (newParseError "Unrecognized token" input
             (mkLocation currentIndex (currentIndex + 1))))
    end.
Proof.
  intros Hlt. simpl.
  destruct (Nat.ltb_spec currentIndex (String.length input)) as [_ | Hge]; [| lia].
  rewrite tryTokenParsers_firstMatch.
  destruct (firstMatch patterns input currentIndex) as [[tokenType lastIndex] |];
    reflexivity.
Qed.

(** The first iteration on the tokens [Foo ::= "foo"], [Bar ::= "bar"],
    [Comma ::= ","] and the texts [bar,] and [baz]. *)
Lemma tokenize_accepts_first_match_witness :
  Parser.tokenize_loop 1
    (patternParsers [("Foo", PatternString "foo"); ("Bar", PatternString "bar");
                     ("Comma", PatternString ",")]) "bar," [] 0
  = Parser.tokenize_loop 0
      (patternParsers [("Foo", PatternString "foo"); ("Bar", PatternString "bar");
                       ("Comma", PatternString ",")]) "bar,"
      [mkToken "Bar" (mkLocation 0 3)] 3
  /\ Parser.tokenize_loop 1
       (patternParsers [("Foo", PatternString "foo"); ("Bar", PatternString "bar");
                        ("Comma", PatternString ",")]) "baz" [] 0
     = Returned (Error (newParseError "Unrecognized token" "baz" (mkLocation 0 1))).
Proof.
  split.
  - apply (tokenize_accepts_first_match
             [("Foo", PatternString "foo"); ("Bar", PatternString "bar");
              ("Comma", PatternString ",")] "bar," [] 0 0).
    simpl. lia.
  - apply (tokenize_accepts_first_match
             [("Foo", PatternString "foo"); ("Bar", PatternString "bar");
              ("Comma", PatternString ",")] "baz" [] 0 0).
    simpl. lia.
Defined.

Lemma firstMatch_In patterns input index tokenType lastIndex :
  firstMatch patterns input index = Some (tokenType, lastIndex) ->
  exists pattern,
    In (tokenType, pattern) patterns
    /\ patternMatch pattern input index = Some lastIndex.
Proof.
  induction patterns as [| [k p] rest IH]; simpl; [discriminate |].
  destruct (patternMatch p input index) as [e |] eqn:Hmatch.
  - intros H. injection H as <- <-. exists p. split; [left; reflexivity | exact Hmatch].
  - intros H. destruct (IH H) as (pattern & Hin & Hp).
    exists pattern. split; [right; exact Hin | exact Hp].
Qed.

(** When no declared pattern matches the empty string, tokenization returns
    within a budget of as many iterations as the source has characters:
    each token advances the position. *)
Theorem tokenize_returns (patterns : list (TokenType * Pattern)) (input : string) :
  (forall tokenType pattern index lastIndex,
      In (tokenType, pattern) patterns ->
      patternMatch pattern input index = Some lastIndex ->
      index < lastIndex) ->
  forall n tokens currentIndex,
    String.length input - currentIndex <= n ->
    exists result,
      Parser.tokenize_loop n (patternParsers patterns) input tokens currentIndex
      = Returned result.
Proof.
  intros Hadvance.
  induction n as [| n IH]; intros tokens currentIndex Hleft; simpl;
    destruct (Nat.ltb_spec currentIndex (String.length input)) as [Hlt | Hge];
    try (eexists; reflexivity); try lia;
    rewrite tryTokenParsers_firstMatch;
    destruct (firstMatch patterns input currentIndex) as [[tokenType lastIndex] |]
      eqn:Hfirst; try (eexists; reflexivity).
  apply firstMatch_In in Hfirst. destruct Hfirst as (pattern & Hin & Hmatch).
  specialize (Hadvance _ _ _ _ Hin Hmatch).
  apply IH. lia.
Qed.

(** Tokenization of [foo,bar] by the example grammar returns within the
    budget of its seven characters, its patterns being non-empty strings. *)
Lemma tokenize_returns_witness :
  exists result,
    Parser.tokenize_loop 7
      (patternParsers [("Foo", PatternString "foo"); ("Bar", PatternString "bar");
                       ("Comma", PatternString ",")]) "foo,bar" [] 0
    = Returned result.
Proof.
  apply (tokenize_returns
           [("Foo", PatternString "foo"); ("Bar", PatternString "bar");
            ("Comma", PatternString ",")] "foo,bar").
  - intros tokenType pattern index lastIndex Hin Hmatch.
    simpl in Hin.
    destruct Hin as [Hin | [Hin | [Hin | []]]]; injection Hin as <- <-;
      unfold patternMatch, literalRegExp in Hmatch;
      match type of Hmatch with
      | (if ?c then _ else _) = _ => destruct c; [| discriminate]
      end;
      injection Hmatch as <-; simpl; lia.
  - simpl. lia.
Defined.

(** With [A ::= /a*/] declared before [B ::= "b"], the lexer stays at
    offset 0 of the text [b], whatever it has collected. *)
Lemma tokenize_loop_star_stuck n tokens :
  Parser.tokenize_loop n (tokenTypes starGrammar) "b" tokens 0 = OutOfFuel.
Proof.
  revert tokens. induction n as [| n IH]; intros tokens; [reflexivity |].
  change (Parser.tokenize_loop (S n) (tokenTypes starGrammar) "b" tokens 0)
    with (Parser.tokenize_loop n (tokenTypes starGrammar) "b"
            (tokens ++ [mkToken "A" (mkLocation 0 0)]) 0).
  apply IH.
Qed.

(** C2 at a failing input: the declarations [A ::= /a*/], [B ::= "b"] and
    the text [b].  The first pattern matching a non-empty prefix at offset
    0 is [B], with the match [[0, 1)]; but the lexer accepts the
    zero-length match of [A], emits the token [A] with the empty location
    [[0, 0)] and does not advance, so that tokenization never returns: it
    pushes that token again and again.  The loops of [zeroOrMore] and
    [oneOrMore] stop on a success that does not advance; the loop of the
    lexer has no such test. *)
Lemma lexer_accepts_zero_length_match :
  firstNonEmptyMatch starPatterns "b" 0 = Some ("B", 1)
  /\ Parser.tryTokenParsers (tokenTypes starGrammar) "b" 0 0
     = Some (mkToken "A" (mkLocation 0 0), 0)
  /\ (forall fuel, Parser.tokenize starGrammar "b" fuel = OutOfFuel).
Proof.
  conjuncts.
  - reflexivity.
  - reflexivity.
  - intros fuel. apply tokenize_loop_star_stuck.
Qed.

(* --------------------------------------------------------------------- *)
(** ** C1: the selection of the root node type *)
(* --------------------------------------------------------------------- *)

(** A name is that of a node type unless it begins with a lowercase
    letter: upper-casing changes no other first character. *)
Lemma isNodeTypeIdentifier_lowercase name :
  isNodeTypeIdentifier name = negb (beginsWithLowercaseLetter name).
Proof.
  destruct name as [| c rest]; [reflexivity |].
  unfold isNodeTypeIdentifier, beginsWithLowercaseLetter. simpl.
  destruct c as [[] [] [] [] [] [] [] []]; reflexivity.
Qed.

Lemma findNonTerminalRule_first terminals name body rest :
  Forall (fun r => isTerminalRule r = true) terminals ->
  findNonTerminalRule (terminals ++ SyntaxNonTerminalRuleNode name body :: rest)
  = Some (name, body).
Proof.
  induction 1 as [| r terminals Hr _ IH]; simpl; [reflexivity |].
  destruct r; [exact IH | discriminate].
Qed.

Lemma findNonTerminalRule_none rules :
  Forall (fun r => isTerminalRule r = true) rules ->
  findNonTerminalRule rules = None.
Proof.
  induction 1 as [| r rules Hr _ IH]; simpl; [reflexivity |].
  destruct r; [exact IH | discriminate].
Qed.

Lemma isNodeTypeIdentifier_uppercase name :
  beginsWithUppercaseLetter name = true -> isNodeTypeIdentifier name = true.
Proof.
  destruct name as [| c rest]; [discriminate |].
  unfold isNodeTypeIdentifier, beginsWithUppercaseLetter.
  destruct c as [[] [] [] [] [] [] [] []]; vm_compute; intros H;
    first [discriminate H | reflexivity].
Qed.

(** C1, as the code has it.  The root is looked for among the non-terminal
    rules by position only: it is the first non-terminal rule in
    declaration order.  If that rule's name begins with an uppercase
    letter, a grammar is returned and its root node type is that name; if
    it begins with a lowercase letter, grammar construction throws,
    whatever rules follow; and if the description has no non-terminal rule,
    grammar construction throws. *)
Theorem root_is_first_non_terminal_rule (ast : SyntaxProgramNode) :
  (Forall (fun r => isTerminalRule r = true) (programRules ast) ->
   parseSyntaxGrammar ast = Thrown "SyntaxError: Missing root rule in syntax grammar")
  /\ (forall terminals name body rest,
        programRules ast = terminals ++ SyntaxNonTerminalRuleNode name body :: rest ->
        Forall (fun r => isTerminalRule r = true) terminals ->
        (beginsWithUppercaseLetter name = true ->
         exists g,
           parseSyntaxGrammar ast = Returned {| grammar := g; rootNodeType := name |})
        /\ (beginsWithLowercaseLetter name = true ->
            parseSyntaxGrammar ast
            = Thrown ("SyntaxError: Root rule must define an AST Node: " ++ name))).
Proof.
  split.
  - intros Hterminals. unfold parseSyntaxGrammar.
    rewrite (findNonTerminalRule_none _ Hterminals). reflexivity.
  - intros terminals name body rest Hrules Hterminals. unfold parseSyntaxGrammar.
    rewrite Hrules, (findNonTerminalRule_first terminals name body rest Hterminals).
    split.
    + intros Hupper. rewrite (isNodeTypeIdentifier_uppercase name Hupper). simpl.
      eexists. reflexivity.
    + intros Hlower. rewrite isNodeTypeIdentifier_lowercase, Hlower. reflexivity.
Qed.

(** C1 on [A ::= "a"], [<Items> ::= [A, A]]: the root node type is
    [Items]. *)
Lemma root_is_first_non_terminal_rule_witness :
  exists g,
    parseSyntaxGrammar uppercaseProgram
    = Returned {| grammar := g; rootNodeType := "Items" |}.
Proof.
  destruct (root_is_first_non_terminal_rule uppercaseProgram) as [_ H].
  destruct (H [SyntaxTerminalRuleNode "A" (SyntaxLiteralNode "a")] "Items"
              (SyntaxListNode (SyntaxTerminalIdentifierNode "A")
                              (SyntaxTerminalIdentifierNode "A")) [])
    as [Hupper _].
  - reflexivity.
  - repeat constructor.
  - apply Hupper. reflexivity.
Defined.

(** C1 as stated fails on [lowercaseFirstProgram]: the first non-terminal
    rule with an uppercase name is [Program], yet no grammar with root
    [Program] is returned; construction throws because of the rule [item]
    declared before it. *)
Lemma lowercase_first_rule_is_rejected :
  firstUppercaseNonTerminal (programRules lowercaseFirstProgram) = Some "Program"
  /\ parseSyntaxGrammar lowercaseFirstProgram
     = Thrown "SyntaxError: Root rule must define an AST Node: item".
Proof. split; reflexivity. Qed.

(** A first character without case, as in [_items], passes for the first
    letter of a node type: upper-casing leaves it as it is. *)
Example caseless_first_character_is_node_type :
  isNodeTypeIdentifier "_items" = true
  /\ exists g,
       parseSyntaxGrammar underscoreProgram
       = Returned {| grammar := g; rootNodeType := "_items" |}.
Proof. split; [reflexivity | eexists; reflexivity]. Qed.

(* --------------------------------------------------------------------- *)
(** ** C3: extending a grammar *)
(* --------------------------------------------------------------------- *)

Lemma objSet_new {V : Type} (k : string) (v : V) (o : Obj V) :
  ~ In k (ownKeys o) -> objSet k v o = o ++ [(k, v)].
Proof.
  induction o as [| [k' w] o IH]; simpl; intros Hnew; [reflexivity |].
  destruct (String.eqb_spec k' k) as [-> | _]; [tauto |].
  rewrite IH by tauto. reflexivity.
Qed.

Lemma fold_objSet_NoDup {V : Type} (entries o : Obj V) :
  NoDup (ownKeys (o ++ entries)) ->
  fold_left (fun acc kv => objSet (fst kv) (snd kv) acc) entries o = o ++ entries.
Proof.
  revert o. induction entries as [| [k v] entries IH]; intros o Hnodup; simpl.
  - rewrite app_nil_r. reflexivity.
  - assert (Hnew : ~ In k (ownKeys o)).
    { unfold ownKeys in *. rewrite List.map_app in Hnodup. simpl in Hnodup.
      apply NoDup_remove_2 in Hnodup. rewrite in_app_iff in Hnodup. tauto. }
    rewrite (objSet_new k v o Hnew).
    replace (o ++ (k, v) :: entries) with ((o ++ [(k, v)]) ++ entries) in *
      by (rewrite <- app_assoc; reflexivity).
    apply IH. exact Hnodup.
Qed.

(** An object built from entries with distinct keys has those entries. *)
Lemma fromEntries_NoDup {V : Type} (entries : Obj V) :
  NoDup (ownKeys entries) -> fromEntries entries = entries.
Proof.
  intros Hnodup. unfold fromEntries. apply (fold_objSet_NoDup entries []). exact Hnodup.
Qed.

(** The handle the factories of a rule map receive has the keys of that
    rule map, and no other. *)
Lemma lazyRules_ownKeys (ruleDefinitions : Obj ParserRuleFactory) (depth : nat) :
  NoDup (ownKeys ruleDefinitions) ->
  ownKeys (lazyRules ruleDefinitions depth) = ownKeys ruleDefinitions.
Proof.
  intros Hnodup. unfold lazyRules.
  rewrite fromEntries_NoDup; unfold ownKeys; rewrite List.map_map; simpl;
    rewrite List.map_id; [reflexivity | exact Hnodup].
Qed.

(** A rule instance is its factory applied to that handle. *)
Lemma ruleInstance_unfold (ruleDefinitions : Obj ParserRuleFactory) (depth : nat)
  (key : string) (ruleFactory : ParserRuleFactory) :
  objGet key ruleDefinitions = Some ruleFactory ->
  ruleInstance ruleDefinitions (S depth) key
  = ruleFactory (lazyRules ruleDefinitions depth).
Proof. intros H. simpl. rewrite H. reflexivity. Qed.

(** C3 at a failing input: [extendGrammar(itemGrammar, pairRules)].  The
    rules of the extended grammar are [Item] and [Pair], and the original
    grammar still has [Item] alone; but the handle that the factory of
    [Pair] receives has the one key [Pair]: its property [Item] is
    undefined.  So [Item] still parses [a], and parsing [aa] from [Pair]
    throws a [TypeError] where [sequence] calls its first element. *)
Lemma extendGrammar_handle_lacks_existing_rules :
  ownKeys (rules pairGrammar) = ["Item"; "Pair"]
  /\ ownKeys (rules itemGrammar) = ["Item"]
  /\ (forall depth, ownKeys (lazyRules pairRules depth) = ["Pair"])
  /\ (forall depth, objGet "Item" (lazyRules pairRules depth) = None)
  /\ parse "a" pairGrammar "Item" 1
     = Returned (Success (VToken (mkToken "A" (mkLocation 0 1))))
  /\ (forall fuel, 2 <= fuel ->
        parse "aa" pairGrammar "Pair" fuel
        = Thrown "TypeError: rule is not a function").
Proof.
  conjuncts; try reflexivity.
  intros fuel Hfuel. destruct fuel as [| [| [| n]]]; [lia | lia | reflexivity ..].
Qed.

(* --------------------------------------------------------------------- *)
(** ** C7: [list] *)
(* --------------------------------------------------------------------- *)

Lemma tailItemOf_success item separator fuel state helpers st :
  tailItemOf item separator fuel state helpers = Returned (Success st) ->
  exists separatorState itemState,
    separator fuel state helpers = Returned (Success separatorState)
    /\ item fuel (inputState separatorState) helpers = Returned (Success itemState)
    /\ st = withValue (inputState itemState) (value itemState)
              (tokens separatorState ++ tokens itemState).
Proof.
  unfold tailItemOf, map, sequence. simpl.
  destruct (separator fuel state helpers) as [[separatorState | e] | exn | ] eqn:Hs;
    simpl; try discriminate.
  destruct (item fuel (inputState separatorState) helpers)
    as [[itemState | e] | exn | ] eqn:Hi; simpl; try discriminate.
  intros H. injection H as <-. exists separatorState, itemState.
  conjuncts; [reflexivity | exact Hi | reflexivity].
Qed.

Lemma tailItemOf_stops item separator fuel state helpers :
  match tailItemOf item separator fuel state helpers with
  | Returned (Error _) => True
  | Returned (Success resultState) => outputIndex resultState = currentIndex state
  | _ => False
  end ->
  tailStops item separator fuel helpers state.
Proof.
  unfold tailStops, tailItemOf, map, sequence. simpl.
  destruct (separator fuel state helpers) as [[separatorState | e] | exn | ];
    simpl; auto.
  destruct (item fuel (inputState separatorState) helpers)
    as [[itemState | e] | exn | ]; simpl; auto.
Qed.

Lemma tailRun_app item separator fuel helpers state steps1 steps2 :
  tailRun item separator fuel helpers state steps1 ->
  tailRun item separator fuel helpers (runEnd state steps1) steps2 ->
  tailRun item separator fuel helpers state (steps1 ++ steps2).
Proof.
  revert state. induction steps1 as [| [separatorState itemState] steps1 IH];
    intros state H1 H2; simpl in *; [exact H2 |].
  destruct H1 as (Hs & Hi & Hrest). auto.
Qed.

Lemma runEnd_app state steps1 steps2 :
  runEnd state (steps1 ++ steps2) = runEnd (runEnd state steps1) steps2.
Proof.
  revert state. induction steps1 as [| [separatorState itemState] steps1 IH];
    intros state; simpl; [reflexivity | apply IH].
Qed.

Lemma runValues_app steps1 steps2 :
  runValues (steps1 ++ steps2) = runValues steps1 ++ runValues steps2.
Proof. apply List.map_app. Qed.

Lemma runTokens_app steps1 steps2 :
  runTokens (steps1 ++ steps2) = runTokens steps1 ++ runTokens steps2.
Proof. apply flat_map_app. Qed.

(** The loop of [zeroOrMore(tailItem)] takes a run of separators and items
    and stops where no further one is taken. *)
Lemma zeroOrMore_loop_tailRun item separator fuel helpers n :
  forall currentState values final values',
    zeroOrMore_loop n (tailItemOf item separator) fuel helpers currentState values
    = Returned (final, values') ->
    exists steps,
      tailRun item separator fuel helpers (inputState currentState) steps
      /\ inputState final = runEnd (inputState currentState) steps
      /\ values' = values ++ runValues steps
      /\ tokens final = tokens currentState ++ runTokens steps
      /\ tailStops item separator fuel helpers (inputState final).
Proof.
  induction n as [| n IH]; intros currentState values final values' H; simpl in H.
  - destruct (tailItemOf item separator fuel (inputState currentState) helpers)
      as [[resultState | e] | exn | ] eqn:Htail; simpl in H; try discriminate.
    + destruct (Nat.eqb_spec (outputIndex resultState) (outputIndex currentState))
        as [Heq | Hneq];
        [| destruct (arrayPush values (value resultState)); discriminate].
      injection H as <- <-. exists []. simpl.
      rewrite !app_nil_r. conjuncts; auto.
      apply tailItemOf_stops. rewrite Htail. exact Heq.
    + injection H as <- <-. exists []. simpl.
      rewrite !app_nil_r. conjuncts; auto.
      apply tailItemOf_stops. rewrite Htail. exact I.
  - destruct (tailItemOf item separator fuel (inputState currentState) helpers)
      as [[resultState | e] | exn | ] eqn:Htail; simpl in H; try discriminate.
    + destruct (Nat.eqb_spec (outputIndex resultState) (outputIndex currentState))
        as [Heq | Hneq].
      * injection H as <- <-. exists []. simpl.
        rewrite !app_nil_r. conjuncts; auto.
        apply tailItemOf_stops. rewrite Htail. exact Heq.
      * destruct (arrayPush values (value resultState)) as [pushed | exn | ] eqn:Hpush;
          simpl in H; try discriminate.
        apply arrayPush_Returned in Hpush. destruct Hpush as [-> _].
        apply IH in H. destruct H as (steps & Hrun & Hend & Hvalues & Htokens & Hstops).
        apply tailItemOf_success in Htail.
        destruct Htail as (separatorState & itemState & Hs & Hi & ->).
        simpl in *.
        exists ((separatorState, itemState) :: steps). simpl.
        conjuncts; auto.
        -- rewrite Hvalues, <- app_assoc. reflexivity.
        -- rewrite Htokens, <- !app_assoc. reflexivity.
    + injection H as <- <-. exists []. simpl.
      rewrite !app_nil_r. conjuncts; auto.
      apply tailItemOf_stops. rewrite Htail. exact I.
Qed.

(** The [minLength - 1] copies of [tailItem] in the sequence take a run of
    as many separators and items. *)
Lemma sequence_loop_repeat_tailRun item separator fuel helpers rest st k :
  forall currentState values consumed,
    sequence_loop (List.repeat (tailItemOf item separator) k ++ rest)
      fuel helpers currentState values consumed = Returned (Success st) ->
    exists steps,
      List.length steps = k
      /\ tailRun item separator fuel helpers currentState steps
      /\ sequence_loop rest fuel helpers (runEnd currentState steps)
           (values ++ runValues steps) (consumed ++ runTokens steps)
         = Returned (Success st).
Proof.
  induction k as [| k IH]; intros currentState values consumed H; simpl in H.
  - exists []. simpl. rewrite !app_nil_r. auto.
  - destruct (tailItemOf item separator fuel currentState helpers)
      as [[resultState | e] | exn | ] eqn:Htail; simpl in H; try discriminate.
    apply IH in H. destruct H as (steps & Hlen & Hrun & Hrest).
    apply tailItemOf_success in Htail.
    destruct Htail as (separatorState & itemState & Hs & Hi & ->).
    simpl in *.
    exists ((separatorState, itemState) :: steps). simpl.
    conjuncts; auto.
    rewrite <- !app_assoc in Hrest. simpl in Hrest. rewrite <- !app_assoc. exact Hrest.
Qed.

Lemma combineListResults_snoc (headItems restItems : list Value) :
  combineListResults (VArray (headItems ++ [VArray restItems]))
  = Returned (VArray (headItems ++ restItems)).
Proof.
  unfold combineListResults. simpl.
  rewrite removelast_last, last_last. reflexivity.
Qed.

(** A success of the matcher for at least [minLength] items: a first item,
    then a run of separators and items, at least [minLength - 1] of them,
    up to a state where no further separator-and-item is taken. *)
Lemma createNonEmptyListMatcher_success item separator minLength fuel state helpers st :
  createNonEmptyListMatcher item separator minLength fuel state helpers
  = Returned (Success st) ->
  exists first steps,
    item fuel state helpers = Returned (Success first)
    /\ tailRun item separator fuel helpers (inputState first) steps
    /\ value st = VArray (value first :: runValues steps)
    /\ inputState st = runEnd (inputState first) steps
    /\ tokens st = tokens first ++ runTokens steps
    /\ tailStops item separator fuel helpers (inputState st)
    /\ Z.to_nat (minLength - 1) <= List.length steps.
Proof.
  unfold createNonEmptyListMatcher, repeat.
  fold (tailItemOf item separator).
  unfold map at 1. unfold sequence. simpl.
  destruct (item fuel state helpers) as [[first | e] | exn | ] eqn:Hitem;
    simpl; try discriminate.
  destruct (sequence_loop
              (List.repeat (tailItemOf item separator) (Z.to_nat (minLength - 1))
               ++ [zeroOrMore (tailItemOf item separator)])
              fuel helpers (inputState first) [value first] (tokens first))
    as [[seqState | e] | exn | ] eqn:Hseq; simpl; try discriminate.
  intros H. injection H as <-.
  apply sequence_loop_repeat_tailRun in Hseq.
  destruct Hseq as (steps1 & Hlen & Hrun1 & Hrest).
  simpl in Hrest. unfold zeroOrMore in Hrest.
  destruct (zeroOrMore_loop fuel (tailItemOf item separator) fuel helpers
              (withValue (runEnd (inputState first) steps1) VNull []) [])
    as [[final values'] | exn | ] eqn:Hloop; simpl in Hrest; try discriminate.
  injection Hrest as <-.
  apply zeroOrMore_loop_tailRun in Hloop.
  destruct Hloop as (steps2 & Hrun2 & Hend & Hvalues & Htokens & Hstops).
  simpl in *. subst values'.
  exists first, (steps1 ++ steps2).
  conjuncts.
  - reflexivity.
  - apply tailRun_app; assumption.
  - pose proof (combineListResults_snoc (value first :: runValues steps1)
                  (runValues steps2)) as Hcombined.
    unfold combineListResults in Hcombined. simpl in Hcombined.
    injection Hcombined as Hcombined.
    rewrite runValues_app. f_equal. exact Hcombined.
  - rewrite runEnd_app. exact Hend.
  - rewrite Htokens, runTokens_app, <- app_assoc. reflexivity.
  - exact Hstops.
  - rewrite length_app. lia.
Qed.

(** The matcher for at least one item fails at once, with the item's
    error, when there is no first item. *)
Lemma createNonEmptyListMatcher_no_first_item
  item separator minLength fuel state helpers e :
  item fuel state helpers = Returned (Error e) ->
  createNonEmptyListMatcher item separator minLength fuel state helpers
  = Returned (Error e).
Proof.
  intros H. unfold createNonEmptyListMatcher, map, sequence. simpl.
  rewrite H. reflexivity.
Qed.

(** The matcher for at least one item fails only for want of a first item:
    [zeroOrMore] never fails. *)
Lemma createNonEmptyListMatcher_one_error item separator fuel state helpers e :
  createNonEmptyListMatcher item separator 1 fuel state helpers = Returned (Error e) ->
  item fuel state helpers = Returned (Error e).
Proof.
  unfold createNonEmptyListMatcher, repeat.
  fold (tailItemOf item separator).
  unfold map at 1. unfold sequence. simpl.
  destruct (item fuel state helpers) as [[first | e'] | exn | ]; simpl;
    try discriminate.
  - destruct (zeroOrMore (tailItemOf item separator) fuel (inputState first) helpers)
      as [[zst | e'] | exn | ] eqn:Hz; simpl; try discriminate.
    exfalso. exact (zeroOrMore_never_Error _ _ _ _ _ Hz).
  - intros H. injection H as <-. reflexivity.
Qed.

(** C7, as the code has it.  For every item rule, separator rule and
    state:
    - with [minLength <= 0], [list(item, separator)] is [optional] applied
      to the list with [minLength = 1], mapped through [values ?? []];
    - when the item matches at the state and the list succeeds, the list
      took that item and then a run of separators each followed by an
      item, at least [minLength - 1] of them; its value is the item values
      in order, one more than the separators consumed; its tokens are
      those of the items and separators in order; and it ends where no
      further separator-and-item is taken, so that a separator with no
      item after it is not consumed;
    - when the item does not match at the state (as on a leading
      separator), the list with [minLength >= 1] fails with the item's
      error, and the list with [minLength <= 0] succeeds with the empty
      list, no token, and the state it was given. *)
Theorem list_semantics (item separator : ParserRule) (fuel : nat)
  (state : ParserRuleInputState) (helpers : ParserRuleHelpers) :
  (forall options,
      (minLengthOf options <= 0)%Z ->
      Combinators.list item separator options
      = map (optional (Combinators.list item separator (Some 1%Z))) orEmptyArray)
  /\ (forall options first st,
        item fuel state helpers = Returned (Success first) ->
        Combinators.list item separator options fuel state helpers
        = Returned (Success st) ->
        exists steps,
          tailRun item separator fuel helpers (inputState first) steps
          /\ Z.to_nat (minLengthOf options - 1) <= List.length steps
          /\ value st = VArray (value first :: runValues steps)
          /\ List.length (value first :: runValues steps) = 1 + List.length steps
          /\ inputState st = runEnd (inputState first) steps
          /\ tokens st = tokens first ++ runTokens steps
          /\ tailStops item separator fuel helpers (inputState st))
  /\ (forall options e,
        item fuel state helpers = Returned (Error e) ->
        Combinators.list item separator options fuel state helpers
        = if (minLengthOf options <=? 0)%Z
          then Returned (Success (withValue state (VArray []) []))
          else Returned (Error e)).
Proof.
  conjuncts.
  - intros options Hmin. unfold Combinators.list, createListMatcher.
    fold (minLengthOf options).
    destruct (Z.leb_spec (minLengthOf options) 0) as [_ | Hgt]; [reflexivity | lia].
  - intros options first st Hitem Hlist.
    unfold Combinators.list, createListMatcher in Hlist.
    fold (minLengthOf options) in Hlist.
    assert (Hsuccess :
      exists st1,
        value st = value st1 /\ inputState st = inputState st1
        /\ tokens st = tokens st1
        /\ exists m, Z.to_nat (minLengthOf options - 1) <= Z.to_nat (m - 1)
             /\ createNonEmptyListMatcher item separator m fuel state helpers
                = Returned (Success st1)).
    { destruct (Z.leb_spec (minLengthOf options) 0) as [Hle | Hgt].
      - unfold map at 1, optional in Hlist.
        destruct (createNonEmptyListMatcher item separator 1 fuel state helpers)
          as [[st1 | e] | exn | ] eqn:Hone; simpl in Hlist; try discriminate.
        + injection Hlist as <-.
          destruct (createNonEmptyListMatcher_success _ _ _ _ _ _ _ Hone)
            as (first' & steps & _ & _ & Hvalue & _).
          exists st1. simpl. rewrite Hvalue. conjuncts; try reflexivity.
          exists 1%Z. split; [lia | exact Hone].
        + apply createNonEmptyListMatcher_one_error in Hone.
          rewrite Hitem in Hone. discriminate.
      - exists st. conjuncts; try reflexivity.
        exists (minLengthOf options). split; [lia | exact Hlist]. }
    destruct Hsuccess as (st1 & Hv & Hs & Ht & m & Hm & Hone).
    destruct (createNonEmptyListMatcher_success _ _ _ _ _ _ _ Hone)
      as (first' & steps & Hitem' & Hrun & Hvalue & Hend & Htokens & Hstops & Hlen).
    rewrite Hitem in Hitem'. injection Hitem' as <-.
    exists steps. rewrite Hv, Hs, Ht. conjuncts; try assumption.
    + lia.
    + simpl. unfold runValues. rewrite length_map. reflexivity.
  - intros options e Hitem. unfold Combinators.list, createListMatcher.
    fold (minLengthOf options).
    destruct (Z.leb_spec (minLengthOf options) 0) as [Hle | Hgt].
    + unfold map at 1, optional.
      rewrite (createNonEmptyListMatcher_no_first_item _ _ _ _ _ _ e Hitem).
      reflexivity.
    + apply createNonEmptyListMatcher_no_first_item. exact Hitem.
Qed.

(** C7 on the text [foo,foo,] from its start: the list of [Foo]s
    separated by commas takes [foo,foo] and stops before the trailing
    comma. *)
Lemma list_semantics_witness :
  exists steps,
    List.length steps = 1
    /\ value (withValue (withCurrentIndex (startState "foo,foo,") 3)
                (VArray [VToken (mkToken "Foo" (mkLocation 0 3));
                         VToken (mkToken "Foo" (mkLocation 4 7))])
                [mkToken "Foo" (mkLocation 0 3); mkToken "Comma" (mkLocation 3 4);
                 mkToken "Foo" (mkLocation 4 7)])
       = VArray (VToken (mkToken "Foo" (mkLocation 0 3)) :: runValues steps)
    /\ tailStops (token "Foo") (token "Comma") 1 (helpersFor "foo,foo,")
         (withCurrentIndex (startState "foo,foo,") 3).
Proof.
  destruct (list_semantics (token "Foo") (token "Comma") 1
              (startState "foo,foo,") (helpersFor "foo,foo,")) as (_ & H & _).
  destruct (H None
              (withValue (withCurrentIndex (startState "foo,foo,") 1)
                 (VToken (mkToken "Foo" (mkLocation 0 3)))
                 [mkToken "Foo" (mkLocation 0 3)])
              (withValue (withCurrentIndex (startState "foo,foo,") 3)
                 (VArray [VToken (mkToken "Foo" (mkLocation 0 3));
                          VToken (mkToken "Foo" (mkLocation 4 7))])
                 [mkToken "Foo" (mkLocation 0 3); mkToken "Comma" (mkLocation 3 4);
                  mkToken "Foo" (mkLocation 4 7)])
              eq_refl eq_refl)
    as (steps & Hrun & Hmin & Hvalue & Hlength & Hend & Htokens & Hstops).
  exists steps. conjuncts.
  - simpl in Hvalue. injection Hvalue as Hvalues.
    apply (f_equal (@List.length Value)) in Hvalues.
    unfold runValues in Hvalues. rewrite length_map in Hvalues. simpl in Hvalues.
    symmetry. exact Hvalues.
  - exact Hvalue.
  - exact Hstops.
Defined.

(** C7 as stated fails on a leading separator.  On the text [,foo],
    where the item [Foo] does not match and the separator does,
    [list(token(Foo), token(Comma))] does not fail: it succeeds with the
    empty list and consumes nothing.  The text is then rejected or
    accepted by what encloses the list: the driver, which asks for the end
    of the input, rejects it at the comma; the sequence of the list, a
    comma and a [Foo] accepts it. *)
Lemma list_leading_separator_is_no_failure :
  token "Foo" 1 (startState ",foo") (helpersFor ",foo")
  = Returned (Error (mkParserRuleError "Expected token: Foo" (mkLocation 0 1)))
  /\ Combinators.list (token "Foo") (token "Comma") None 1
       (startState ",foo") (helpersFor ",foo")
     = Returned (Success (withValue (startState ",foo") (VArray []) []))
  /\ Parser.parse fooListGrammar (lexed ",foo") ",foo" "Root" 1
     = Returned (Error (newParseError "Expected end of input" ",foo" (mkLocation 0 1)))
  /\ sequence [Combinators.list (token "Foo") (token "Comma") None;
               token "Comma"; token "Foo"] 1
       (startState ",foo") (helpersFor ",foo")
     = Returned (Success
         (withValue (withCurrentIndex (startState ",foo") 2)
            (VArray [VArray []; VToken (mkToken "Comma" (mkLocation 0 1));
                     VToken (mkToken "Foo" (mkLocation 1 4))])
            [mkToken "Comma" (mkLocation 0 1); mkToken "Foo" (mkLocation 1 4)])).
Proof. conjuncts; reflexivity. Qed.

(* --------------------------------------------------------------------- *)
(** ** Further properties: [sequence], the tokens of the lexer *)
(* --------------------------------------------------------------------- *)

Lemma sequence_loop_chain rules fuel helpers :
  forall currentState values consumed st,
    sequence_loop rules fuel helpers currentState values consumed
    = Returned (Success st)
    <-> exists outs,
          chain rules fuel helpers currentState outs
          /\ st = withValue (chainEnd currentState outs)
                    (VArray (values ++ List.map value outs))
                    (consumed ++ flat_map tokens outs).
Proof.
  induction rules as [| r rules IH]; intros currentState values consumed st; simpl.
  - split.
    + intros H. injection H as <-. exists []. simpl. rewrite !app_nil_r. auto.
    + intros ([| out outs] & Hchain & ->); [| contradiction].
      simpl. rewrite !app_nil_r. reflexivity.
  - split.
    + destruct (r fuel currentState helpers) as [[out | e] | exn | ] eqn:Hr;
        simpl; try discriminate.
      intros H. apply IH in H. destruct H as (outs & Hchain & ->).
      exists (out :: outs). simpl. rewrite <- !app_assoc. auto.
    + intros ([| out outs] & Hchain & ->); [contradiction |].
      destruct Hchain as [Hr Hchain]. rewrite Hr. simpl.
      apply IH. exists outs. rewrite <- !app_assoc. auto.
Qed.

(** [sequence(r1, ..., rn)] succeeds exactly when its rules succeed one
    after the other, each from the state the one before it ended in; its
    value is then the array of their values in order, its consumed tokens
    the concatenation of theirs in order, and its state that of the last
    rule (the state it was given when [n = 0]). *)
Theorem sequence_concatenates (rules : list ParserRule) (fuel : nat)
  (state : ParserRuleInputState) (helpers : ParserRuleHelpers)
  (st : ParserRuleOutputState) :
  sequence rules fuel state helpers = Returned (Success st)
  <-> exists outs,
        chain rules fuel helpers state outs
        /\ st = withValue (chainEnd state outs) (VArray (List.map value outs))
                  (flat_map tokens outs).
Proof.
  unfold sequence. apply sequence_loop_chain.
Qed.

Lemma contiguousFrom_snoc from toks tok :
  contiguousFrom from toks ->
  start (location tok) = tokensEnd from toks ->
  contiguousFrom from (toks ++ [tok])
  /\ tokensEnd from (toks ++ [tok]) = end_ (location tok).
Proof.
  revert from. induction toks as [| t toks IH]; intros from Hcontiguous Hstart; simpl in *.
  - auto.
  - destruct Hcontiguous as [Ht Hrest].
    destruct (IH _ Hrest Hstart) as [H1 H2]. auto.
Qed.

(** The token a successful attempt emits starts at the position of the
    iteration and ends at the next position. *)
Lemma tryTokenParsers_location tokenParsers input :
  forall stateIndex currentIndex tok nextIndex,
    Parser.tryTokenParsers tokenParsers input stateIndex currentIndex
    = Some (tok, nextIndex) ->
    start (location tok) = currentIndex /\ end_ (location tok) = nextIndex.
Proof.
  induction tokenParsers as [| [tokenType tokenParser] rest IH];
    intros stateIndex currentIndex tok nextIndex H; simpl in H; [discriminate |].
  destruct (tokenParser (mkTokenParserState input stateIndex))
    as [[resultState |] stateAfter].
  - injection H as <- <-. simpl. auto.
  - exact (IH _ _ _ _ H).
Qed.

Lemma tokenize_loop_contiguous tokenParsers input n :
  forall collected currentIndex toks,
    contiguousFrom 0 collected ->
    tokensEnd 0 collected = currentIndex ->
    Parser.tokenize_loop n tokenParsers input collected currentIndex
    = Returned (Success toks) ->
    contiguousFrom 0 toks /\ String.length input <= tokensEnd 0 toks.
Proof.
  induction n as [| n IH]; intros collected currentIndex toks Hcontiguous Hend H;
    simpl in H;
    destruct (Nat.ltb_spec currentIndex (String.length input)) as [Hlt | Hge];
    try (injection H as <-; split; [exact Hcontiguous | lia]);
    destruct (Parser.tryTokenParsers tokenParsers input currentIndex currentIndex)
      as [[tok nextIndex] |] eqn:Htry; try discriminate.
  apply tryTokenParsers_location in Htry. destruct Htry as [Hstart Hstop].
  destruct (contiguousFrom_snoc 0 collected tok Hcontiguous) as [Hc He];
    [congruence |].
  apply (IH (collected ++ [tok]) nextIndex toks Hc); [congruence | exact H].
Qed.

(** For every grammar and source, the tokens of a successful tokenization
    follow one another without a gap from offset 0 -- each token starts
    where the one before it ends -- and they reach the end of the
    source. *)
Theorem tokenize_tokens_contiguous (grammar : Grammar) (input : string) (fuel : nat)
  (toks : list Token) :
  Parser.tokenize grammar input fuel = Returned (Success toks) ->
  contiguousFrom 0 toks /\ String.length input <= tokensEnd 0 toks.
Proof.
  unfold Parser.tokenize.
  apply tokenize_loop_contiguous; [exact I | reflexivity].
Qed.

(** The tokens of [foo,bar]: [Foo] at [[0, 3)], [Comma] at [[3, 4)] and
    [Bar] at [[4, 7)]. *)
Lemma tokenize_tokens_contiguous_witness :
  contiguousFrom 0
    [mkToken "Foo" (mkLocation 0 3); mkToken "Comma" (mkLocation 3 4);
     mkToken "Bar" (mkLocation 4 7)]
  /\ String.length "foo,bar"
     <= tokensEnd 0
          [mkToken "Foo" (mkLocation 0 3); mkToken "Comma" (mkLocation 3 4);
           mkToken "Bar" (mkLocation 4 7)].
Proof.
  apply (tokenize_tokens_contiguous exampleGrammar "foo,bar" 7).
  reflexivity.
Defined.


(* --------------------------------------------------------------------- *)
(** ** [struct]: the record of the named fields *)
(* --------------------------------------------------------------------- *)

Lemma objGet_objSet_same {V : Type} (k : string) (v : V) (o : Obj V) :
  objGet k (objSet k v o) = Some v.
Proof.
  induction o as [| [k' w] o IH]; simpl.
  - rewrite String.eqb_refl. reflexivity.
  - destruct (String.eqb_spec k' k) as [-> | Hneq]; simpl.
    + rewrite String.eqb_refl. reflexivity.
    + destruct (String.eqb_spec k' k) as [-> | _]; [contradiction | exact IH].
Qed.

Lemma objGet_objSet_other {V : Type} (k k' : string) (v : V) (o : Obj V) :
  k' <> k -> objGet k (objSet k' v o) = objGet k o.
Proof.
  intros Hneq. induction o as [| [k0 w] o IH]; simpl.
  - destruct (String.eqb_spec k' k) as [-> | _]; [contradiction | reflexivity].
  - destruct (String.eqb_spec k0 k') as [-> | Hk0]; simpl.
    + destruct (String.eqb_spec k' k) as [-> | _]; [contradiction | reflexivity].
    + destruct (String.eqb_spec k0 k) as [_ | _]; [reflexivity | exact IH].
Qed.

(** Fields that do not bear the key leave its entry as it is. *)
Lemma structFieldValues_other (k : string) (fields : list StructFieldDescriptor) :
  (forall f, In f fields -> key f <> Some k) ->
  forall values fieldValues,
    objGet k (structFieldValues fields values fieldValues) = objGet k fieldValues.
Proof.
  induction fields as [| f fields IH]; intros Hother values fieldValues; simpl;
    [reflexivity |].
  rewrite IH by (intros g Hg; apply Hother; right; exact Hg).
  destruct (key f) as [k' |] eqn:Hkey; [| reflexivity].
  apply objGet_objSet_other. intros ->. apply (Hother f); [left; reflexivity | exact Hkey].
Qed.

Lemma structFieldValues_last (k : string) (before : list StructFieldDescriptor)
  (f : StructFieldDescriptor) (after : list StructFieldDescriptor) :
  key f = Some k ->
  (forall g, In g after -> key g <> Some k) ->
  forall values fieldValues v,
    nth_error values (List.length before) = Some v ->
    objGet k (structFieldValues (before ++ f :: after) values fieldValues) = Some v.
Proof.
  intros Hkey Hafter.
  induction before as [| b before IH]; intros values fieldValues v Hnth; simpl in *.
  - rewrite structFieldValues_other by exact Hafter.
    rewrite Hkey. destruct values as [| v' values]; [discriminate |].
    injection Hnth as ->. apply objGet_objSet_same.
  - destruct values as [| v' values]; [discriminate |]. simpl in *.
    apply IH. exact Hnth.
Qed.

(** For fields whose keys are ordinary keys (not [__proto__], not
    beginning with a digit), [struct(field(k1, r1), ..., field(kn, rn))]
    succeeds exactly when the rules of its fields succeed one after the
    other, as in [sequence]; the tokens it consumed are those of all the
    fields in order, the fields with a [null] key included.  Its value is
    a record which has no entry for a key borne by no field, and in which
    a key borne by a field holds the value of the last field that bears
    it. *)
Theorem struct_builds_record (fields : list StructFieldDescriptor) (fuel : nat)
  (state : ParserRuleInputState) (helpers : ParserRuleHelpers) :
  forallb isOrdinaryKey (fieldKeys fields) = true ->
  (forall st,
      struct fields fuel state helpers = Returned (Success st)
      <-> exists outs,
            chain (List.map rule fields) fuel helpers state outs
            /\ st = withValue (chainEnd state outs)
                      (VObject (structFieldValues fields (List.map value outs) []))
                      (flat_map tokens outs))
  /\ (forall e,
        struct fields fuel state helpers = Returned (Error e)
        <-> sequence (List.map rule fields) fuel state helpers = Returned (Error e))
  /\ (forall values k,
        (forall f, In f fields -> key f <> Some k) ->
        objGet k (structFieldValues fields values []) = None)
  /\ (forall before f after values k v,
        fields = before ++ f :: after ->
        key f = Some k ->
        (forall g, In g after -> key g <> Some k) ->
        nth_error values (List.length before) = Some v ->
        objGet k (structFieldValues fields values []) = Some v).
Proof.
  intros _. conjuncts.
  - intros st. unfold struct, map, sequence. split.
    + destruct (sequence_loop (List.map rule fields) fuel helpers state [] [])
        as [[seqState | e] | exn | ] eqn:Hseq; simpl; try discriminate.
      intros H. injection H as <-.
      apply sequence_loop_chain in Hseq. destruct Hseq as (outs & Hchain & ->).
      exists outs. simpl. auto.
    + intros (outs & Hchain & ->).
      assert (Hseq : sequence_loop (List.map rule fields) fuel helpers state [] []
                     = Returned (Success
                         (withValue (chainEnd state outs)
                            (VArray ([] ++ List.map value outs))
                            ([] ++ flat_map tokens outs)))).
      { apply sequence_loop_chain. exists outs. auto. }
      rewrite Hseq. reflexivity.
  - intros e. unfold struct, map.
    destruct (sequence (List.map rule fields) fuel state helpers)
      as [[seqState | e'] | exn | ]; simpl; split; intros H;
      first [discriminate H | exact H].
  - intros values k Hother. rewrite structFieldValues_other by exact Hother. reflexivity.
  - intros before f after values k v -> Hkey Hafter Hnth.
    apply structFieldValues_last; assumption.
Qed.

(** The record of [struct(field("first", Foo), field(null, Comma),
    field("second", Bar))] on the text [foo,bar]: the comma is consumed
    and has no entry, and [second] holds the token [Bar]. *)
Lemma struct_builds_record_witness :
  struct [field (Some "first") (token "Foo"); field None (token "Comma");
          field (Some "second") (token "Bar")] 1
    (startState "foo,bar") (helpersFor "foo,bar")
  = Returned (Success
      (withValue (withCurrentIndex (startState "foo,bar") 3)
         (VObject [("first", VToken (mkToken "Foo" (mkLocation 0 3)));
                   ("second", VToken (mkToken "Bar" (mkLocation 4 7)))])
         [mkToken "Foo" (mkLocation 0 3); mkToken "Comma" (mkLocation 3 4);
          mkToken "Bar" (mkLocation 4 7)])).
Proof.
  destruct (struct_builds_record
              [field (Some "first") (token "Foo"); field None (token "Comma");
               field (Some "second") (token "Bar")] 1
              (startState "foo,bar") (helpersFor "foo,bar") eq_refl)
    as (Hsuccess & _).
  apply Hsuccess.
  exists [withValue (withCurrentIndex (startState "foo,bar") 1)
            (VToken (mkToken "Foo" (mkLocation 0 3))) [mkToken "Foo" (mkLocation 0 3)];
          withValue (withCurrentIndex (startState "foo,bar") 2)
            (VToken (mkToken "Comma" (mkLocation 3 4)))
            [mkToken "Comma" (mkLocation 3 4)];
          withValue (withCurrentIndex (startState "foo,bar") 3)
            (VToken (mkToken "Bar" (mkLocation 4 7))) [mkToken "Bar" (mkLocation 4 7)]].
  split; [simpl; conjuncts; reflexivity | reflexivity].
Defined.

(* --------------------------------------------------------------------- *)
(** ** [zeroOrMore] and [oneOrMore]: what a repetition collects *)
(* --------------------------------------------------------------------- *)

(** The loop of a repetition went through advancing successes, no more of
    them than its budget, and stopped where the rule fails or does not
    advance; their values were pushed onto the array of values, which
    they fit in. *)
Lemma zeroOrMore_loop_repetitions r fuel helpers n :
  forall currentState values final values',
    zeroOrMore_loop n r fuel helpers currentState values = Returned (final, values') ->
    exists outs,
      List.length outs <= n
      /\ ((Z.of_nat (List.length values) <= maxArrayLength)%Z ->
          (Z.of_nat (List.length values + List.length outs) <= maxArrayLength)%Z)
      /\ repetitions r fuel helpers (inputState currentState) outs
      /\ stopsAt r fuel helpers (chainEnd (inputState currentState) outs)
      /\ values' = values ++ List.map value outs
      /\ inputState final = chainEnd (inputState currentState) outs
      /\ tokens final = tokens currentState ++ flat_map tokens outs.
Proof.
  induction n as [| n IH]; intros currentState values final values' H; simpl in H;
    destruct (r fuel (inputState currentState) helpers)
      as [[resultState | e] | exn | ] eqn:Hr; simpl in H; try discriminate.
  - destruct (Nat.eqb_spec (outputIndex resultState) (outputIndex currentState))
      as [Heq | Hneq];
      [| destruct (arrayPush values (value resultState)); discriminate].
    injection H as <- <-. exists []. simpl. rewrite !app_nil_r, Nat.add_0_r.
    unfold stopsAt. rewrite Hr. conjuncts; auto.
  - injection H as <- <-. exists []. simpl. rewrite !app_nil_r, Nat.add_0_r.
    unfold stopsAt. rewrite Hr. conjuncts; auto.
  - destruct (Nat.eqb_spec (outputIndex resultState) (outputIndex currentState))
      as [Heq | Hneq].
    + injection H as <- <-. exists []. simpl. rewrite !app_nil_r, Nat.add_0_r.
      unfold stopsAt. rewrite Hr. conjuncts; auto. lia.
    + destruct (arrayPush values (value resultState)) as [pushed | exn | ] eqn:Hpush;
        simpl in H; try discriminate.
      apply arrayPush_Returned in Hpush. destruct Hpush as [-> Hroom].
      apply IH in H.
      destruct H as (outs & Hlen & Hfit & Hreps & Hstops & Hvalues & Hend & Htokens).
      rewrite length_app in Hfit. cbn [List.length] in Hfit.
      simpl in Hreps, Hstops, Hend, Htokens.
      exists (resultState :: outs). cbn [List.length]. simpl.
      conjuncts; auto.
      * lia.
      * lia.
      * rewrite Hvalues, <- app_assoc. reflexivity.
      * rewrite Htokens, <- app_assoc. reflexivity.
  - injection H as <- <-. exists []. simpl. rewrite !app_nil_r, Nat.add_0_r.
    unfold stopsAt. rewrite Hr. conjuncts; auto. lia.
Qed.

(** Conversely, the loop goes through any run of advancing successes that
    its budget allows, whose values fit in the array of values, and that
    ends where the rule stops. *)
Lemma repetitions_zeroOrMore_loop r fuel helpers n :
  forall outs currentState values,
    List.length outs <= n ->
    (Z.of_nat (List.length values + List.length outs) <= maxArrayLength)%Z ->
    repetitions r fuel helpers (inputState currentState) outs ->
    stopsAt r fuel helpers (chainEnd (inputState currentState) outs) ->
    exists final,
      zeroOrMore_loop n r fuel helpers currentState values
      = Returned (final, values ++ List.map value outs)
      /\ inputState final = chainEnd (inputState currentState) outs
      /\ tokens final = tokens currentState ++ flat_map tokens outs.
Proof.
  induction n as [| n IH]; intros outs currentState values Hlen Hfit Hreps Hstops.
  - destruct outs as [| out outs]; [| simpl in Hlen; lia].
    exists currentState. rewrite zeroOrMore_loop_stops by exact Hstops.
    simpl. rewrite !app_nil_r. auto.
  - destruct outs as [| out outs].
    + exists currentState. rewrite zeroOrMore_loop_stops by exact Hstops.
      simpl. rewrite !app_nil_r. auto.
    + cbn [List.length] in Hlen, Hfit.
      simpl in Hreps, Hstops. destruct Hreps as (Hr & Hadv & Hreps).
      simpl. rewrite Hr. simpl.
      destruct (Nat.eqb_spec (outputIndex out) (outputIndex currentState))
        as [Heq | _]; [contradiction |].
      rewrite arrayPush_room by lia. simpl.
      destruct (IH outs
                  (withValue (inputState out) (value out)
                     (tokens currentState ++ tokens out))
                  (values ++ [value out])) as (final & Hloop & Hend & Htokens);
        [lia | rewrite length_app; cbn [List.length]; lia | exact Hreps | exact Hstops |].
      exists final. simpl in Hend, Htokens.
      rewrite Hloop, Hend, Htokens, <- !app_assoc. auto.
Qed.

(** [zeroOrMore(r)] succeeds exactly with what a run of advancing successes
    of [r] gives, the run ending where [r] fails or succeeds without
    advancing, and its values fitting in an array: the values of the run
    in order, its tokens in order, and the state it ends in.  The value
    and the tokens of the success that does not advance are dropped. *)
Theorem zeroOrMore_collects (r : ParserRule) (fuel : nat)
  (state : ParserRuleInputState) (helpers : ParserRuleHelpers)
  (st : ParserRuleOutputState) :
  zeroOrMore r fuel state helpers = Returned (Success st)
  <-> exists outs,
        List.length outs <= fuel
        /\ (Z.of_nat (List.length outs) <= maxArrayLength)%Z
        /\ repetitions r fuel helpers state outs
        /\ stopsAt r fuel helpers (chainEnd state outs)
        /\ st = withValue (chainEnd state outs) (VArray (List.map value outs))
                  (flat_map tokens outs).
Proof.
  unfold zeroOrMore. split.
  - destruct (zeroOrMore_loop fuel r fuel helpers (withValue state VNull []) [])
      as [[final values'] | exn | ] eqn:Hloop; simpl; try discriminate.
    intros H. injection H as <-.
    apply zeroOrMore_loop_repetitions in Hloop.
    destruct Hloop as (outs & Hlen & Hfit & Hreps & Hstops & -> & Hend & Htokens).
    simpl in Hfit, Hreps, Hstops, Hend, Htokens. exists outs.
    rewrite Hend, Htokens. conjuncts; auto.
    apply Hfit. unfold maxArrayLength. lia.
  - intros (outs & Hlen & Hfit & Hreps & Hstops & ->).
    destruct (repetitions_zeroOrMore_loop r fuel helpers fuel outs
                (withValue state VNull []) [] Hlen Hfit Hreps Hstops)
      as (final & Hloop & Hend & Htokens).
    rewrite Hloop. simpl in *. rewrite Hend, Htokens. reflexivity.
Qed.

(** [oneOrMore(r)] fails exactly when the first application of [r] fails,
    and with its error; when it succeeds, its value is a non-empty array:
    the value of the first success of [r], then those of a run of
    advancing successes from there, with their tokens in order. *)
Theorem oneOrMore_collects (r : ParserRule) (fuel : nat)
  (state : ParserRuleInputState) (helpers : ParserRuleHelpers) :
  (forall e,
      oneOrMore r fuel state helpers = Returned (Error e)
      <-> r fuel state helpers = Returned (Error e))
  /\ (forall st,
        oneOrMore r fuel state helpers = Returned (Success st) ->
        exists first outs,
          r fuel state helpers = Returned (Success first)
          /\ repetitions r fuel helpers (inputState first) outs
          /\ st = withValue (chainEnd (inputState first) outs)
                    (VArray (value first :: List.map value outs))
                    (tokens first ++ flat_map tokens outs)).
Proof.
  split.
  - intros e. unfold oneOrMore.
    destruct (r fuel state helpers) as [[first | e'] | exn | ]; simpl;
      try (split; intros H; first [discriminate H | exact H]).
    destruct (outputIndex first =? currentIndex state);
      [split; discriminate |].
    destruct fuel as [| n]; [split; discriminate |].
    destruct (oneOrMore_loop n r (S n) helpers
                (withValue (inputState first) VNull (tokens first)) [value first])
      as [[final values'] | exn | ]; simpl; split; discriminate.
  - intros st. unfold oneOrMore.
    destruct (r fuel state helpers) as [[first | e'] | exn | ]; simpl;
      try discriminate.
    destruct (outputIndex first =? currentIndex state).
    + intros H. injection H as <-. exists first, []. simpl.
      rewrite app_nil_r. auto.
    + destruct fuel as [| n]; [discriminate |].
      rewrite oneOrMore_loop_eq.
      destruct (zeroOrMore_loop n r (S n) helpers
                  (withValue (inputState first) VNull (tokens first)) [value first])
        as [[final values'] | exn | ] eqn:Hloop; simpl; try discriminate.
      intros H. injection H as <-.
      apply zeroOrMore_loop_repetitions in Hloop.
      destruct Hloop as (outs & Hlen & _ & Hreps & Hstops & -> & Hend & Htokens).
      simpl in Hreps, Hstops, Hend, Htokens. exists first, outs.
      simpl. rewrite Hend, Htokens. auto.
Qed.

(* --------------------------------------------------------------------- *)
(** ** How the combinators compose *)
(* --------------------------------------------------------------------- *)

Lemma keptError_furtherError currentError e e' :
  keptError (furtherError currentError e) e'
  = keptError currentError (keptError (Some (e, errorStart e)) e').
Proof.
  destruct currentError as [[kept index] |]; simpl; [| reflexivity].
  destruct (Nat.ltb_spec index (errorStart e)) as [Hlt | Hge]; simpl.
  - destruct (Nat.ltb_spec (errorStart e) (errorStart e')) as [Hlt' | Hge'].
    + destruct (Nat.ltb_spec index (errorStart e')); [reflexivity | lia].
    + destruct (Nat.ltb_spec index (errorStart e)); [reflexivity | lia].
  - destruct (Nat.ltb_spec (errorStart e) (errorStart e')) as [Hlt' | Hge'].
    + reflexivity.
    + destruct (Nat.ltb_spec index (errorStart e')) as [Hlt'' | _];
        destruct (Nat.ltb_spec index (errorStart e)) as [Hlt3 | _];
        try reflexivity; lia.
Qed.

(** The loop of [choice] started with an error in hand gives what it gives
    started with none, the error in hand being kept unless the loop's own
    starts strictly further. *)
Lemma choice_loop_currentError fuel state helpers (rules : list ParserRule) :
  rules <> [] ->
  forall currentError,
    choice_loop rules fuel state helpers currentError
    = match choice_loop rules fuel state helpers None with
      | Returned (Error e) => Returned (Error (keptError currentError e))
      | other => other
      end.
Proof.
  induction rules as [| r rest IH]; intros Hne currentError; [contradiction |].
  simpl. destruct (r fuel state helpers) as [[st | e] | exn | ]; simpl;
    try reflexivity.
  fold (errorStart e). fold (furtherError currentError e).
  destruct rest as [| r' rest].
  - simpl. destruct currentError as [[kept index] |]; simpl; [| reflexivity].
    destruct (index <? errorStart e); reflexivity.
  - rewrite (IH ltac:(discriminate) (furtherError currentError e)).
    rewrite (IH ltac:(discriminate) (Some (e, errorStart e))).
    destruct (choice_loop (r' :: rest) fuel state helpers None)
      as [[st | e'] | exn | ]; try reflexivity.
    rewrite keptError_furtherError. reflexivity.
Qed.

Lemma choice_loop_nested fuel state helpers (inner : list ParserRule) :
  inner <> [] ->
  forall alternatives currentError,
    choice_loop (alternatives ++ [choice inner]) fuel state helpers currentError
    = choice_loop (alternatives ++ inner) fuel state helpers currentError.
Proof.
  intros Hne alternatives.
  induction alternatives as [| r alternatives IH]; intros currentError.
  - simpl. rewrite (choice_loop_currentError fuel state helpers inner Hne currentError).
    unfold choice.
    destruct (choice_loop inner fuel state helpers None) as [[st | e] | exn | ];
      simpl; try reflexivity.
    destruct currentError as [[kept index] |]; simpl; [| reflexivity].
    fold (errorStart e). destruct (index <? errorStart e); reflexivity.
  - simpl. destruct (r fuel state helpers) as [[st | e] | exn | ]; simpl;
      try reflexivity.
    apply IH.
Qed.

Lemma zeroOrMore_loop_optional r fuel helpers n :
  forall currentState values,
    zeroOrMore_loop n (optional r) fuel helpers currentState values
    = zeroOrMore_loop n r fuel helpers currentState values.
Proof.
  induction n as [| n IH]; intros currentState values; simpl; unfold optional;
    destruct (r fuel (inputState currentState) helpers) as [[st | e] | exn | ];
    simpl; try reflexivity;
    try (unfold outputIndex; simpl; rewrite Nat.eqb_refl; reflexivity).
  destruct (outputIndex st =? outputIndex currentState); [reflexivity |].
  destruct (arrayPush values (value st)) as [pushed | exn | ]; simpl;
    [apply IH | reflexivity | reflexivity].
Qed.

(** Laws of composition, for every rule, state and helpers:
    - [choice] is associative: a [choice] given as the last alternative of
      another gives the result, and on failure the error, of the one
      [choice] of all the alternatives; and [choice(r)] is [r];
    - [map] composes: [map(map(r, f), g)] is [map(r, v => g(f(v)))], what
      [f] or [g] throws included;
    - [text] reads the tokens only: [text(node(type, r))] is [text(r)],
      and so is [text(map(r, f))] when [f] returns a value for the value
      of [r], while what [f] throws passes through [text];
    - [optional(optional(r))] is [optional(r)], and [optional] changes
      nothing inside or around a [zeroOrMore]. *)
Theorem combinators_compose (r : ParserRule) (fuel : nat)
  (state : ParserRuleInputState) (helpers : ParserRuleHelpers) :
  (forall rules inner,
      inner <> [] ->
      choice (rules ++ [choice inner]) fuel state helpers
      = choice (rules ++ inner) fuel state helpers)
  /\ choice [r] fuel state helpers = r fuel state helpers
  /\ (forall f g,
        map (map r f) g fuel state helpers
        = map r (fun v => w <- f v ;; g w) fuel state helpers)
  /\ (forall f,
        (forall st,
            r fuel state helpers = Returned (Success st) ->
            exists v, f (value st) = Returned v) ->
        text (map r f) fuel state helpers = text r fuel state helpers)
  /\ (forall f st exn,
        r fuel state helpers = Returned (Success st) ->
        f (value st) = Thrown exn ->
        text (map r f) fuel state helpers = Thrown exn)
  /\ (forall nodeType,
        text (node nodeType r) fuel state helpers = text r fuel state helpers)
  /\ optional (optional r) fuel state helpers = optional r fuel state helpers
  /\ zeroOrMore (optional r) fuel state helpers = zeroOrMore r fuel state helpers
  /\ optional (zeroOrMore r) fuel state helpers = zeroOrMore r fuel state helpers.
Proof.
  conjuncts.
  - intros rules inner Hne. unfold choice at 1 3. apply choice_loop_nested. exact Hne.
  - unfold choice. simpl.
    destruct (r fuel state helpers) as [[st | e] | exn | ]; reflexivity.
  - intros f g. unfold map.
    destruct (r fuel state helpers) as [[st | e] | exn | ]; try reflexivity.
    simpl. destruct (f (value st)) as [v | exn | ]; reflexivity.
  - intros f Hreturns. unfold text, map.
    destruct (r fuel state helpers) as [[st | e] | exn | ]; try reflexivity.
    destruct (Hreturns st eq_refl) as [v Hv]. simpl. rewrite Hv. reflexivity.
  - intros f st exn Hr Hf. unfold text, map. rewrite Hr. simpl. rewrite Hf. reflexivity.
  - intros nodeType. unfold text, node.
    destruct (r fuel state helpers) as [[st | e] | exn | ]; reflexivity.
  - unfold optional.
    destruct (r fuel state helpers) as [[st | e] | exn | ]; reflexivity.
  - unfold zeroOrMore. rewrite zeroOrMore_loop_optional. reflexivity.
  - unfold optional.
    destruct (zeroOrMore r fuel state helpers) as [[st | e] | exn | ] eqn:H;
      try reflexivity.
    exfalso. exact (zeroOrMore_never_Error _ _ _ _ _ H).
Qed.

(* --------------------------------------------------------------------- *)
(** ** Grammars: the rules table and its extension *)
(* --------------------------------------------------------------------- *)

Lemma objGet_None_keys {V : Type} (k : string) (o : Obj V) :
  objGet k o = None <-> ~ In k (ownKeys o).
Proof.
  induction o as [| [k' v] o IH]; simpl; [tauto |].
  destruct (String.eqb_spec k' k) as [-> | Hneq].
  - split; [discriminate | tauto].
  - rewrite IH. tauto.
Qed.

(** The entry of a key in an object built by assigning, for each key of a
    list in turn, a value that depends on the key only. *)
Lemma objGet_fold_keys {V : Type} (g : string -> V) (k : string) (keys : list string) :
  forall o,
    objGet k (fold_left (fun acc kv => objSet (fst kv) (snd kv) acc)
                (List.map (fun k' => (k', g k')) keys) o)
    = if existsb (String.eqb k) keys then Some (g k) else objGet k o.
Proof.
  induction keys as [| k' keys IH]; intros o; simpl; [reflexivity |].
  rewrite IH. destruct (existsb (String.eqb k) keys).
  - rewrite orb_true_r. reflexivity.
  - rewrite orb_false_r. destruct (String.eqb_spec k k') as [<- | Hneq].
    + apply objGet_objSet_same.
    + apply objGet_objSet_other. congruence.
Qed.

Lemma existsb_ownKeys {V : Type} (k : string) (o : Obj V) :
  existsb (String.eqb k) (ownKeys o) = match objGet k o with Some _ => true | None => false end.
Proof.
  induction o as [| [k' v] o IH]; simpl; [reflexivity |].
  rewrite String.eqb_sym. destruct (String.eqb k' k); [reflexivity | exact IH].
Qed.

(** Spreading [b] over [a]: the entry of a key is the last one [b] assigns
    to it, and that of [a] when [b] assigns none. *)
Lemma objGet_fold_objSet {V : Type} (k : string) (b : list (string * V)) :
  forall a,
    objGet k (fold_left (fun acc kv => objSet (fst kv) (snd kv) acc) b a)
    = match objGet k (fold_left (fun acc kv => objSet (fst kv) (snd kv) acc) b [])
      with
      | Some v => Some v
      | None => objGet k a
      end.
Proof.
  induction b as [| [k' v] b IH]; intros a; simpl; [reflexivity |].
  rewrite (IH (objSet k' v a)), (IH [(k', v)]).
  destruct (objGet k (fold_left (fun acc kv => objSet (fst kv) (snd kv) acc) b []));
    [reflexivity |].
  simpl. destruct (String.eqb_spec k' k) as [-> | Hneq].
  - apply objGet_objSet_same.
  - apply objGet_objSet_other. exact Hneq.
Qed.

Lemma objSet_ownKeys_NoDup {V : Type} (k : string) (v : V) (o : Obj V) :
  NoDup (ownKeys o) -> NoDup (ownKeys (objSet k v o)).
Proof.
  intros Hnodup. destruct (objGet k o) as [w |] eqn:Hget.
  - assert (Hkeys : ownKeys (objSet k v o) = ownKeys o).
    { clear Hnodup. induction o as [| [k' w'] o IH]; simpl in *; [discriminate |].
      destruct (String.eqb_spec k' k) as [-> | Hneq]; simpl; [reflexivity |].
      rewrite IH by exact Hget. reflexivity. }
    rewrite Hkeys. exact Hnodup.
  - apply objGet_None_keys in Hget. rewrite (objSet_new k v o Hget).
    unfold ownKeys. rewrite List.map_app. simpl.
    apply NoDup_app; [exact Hnodup | constructor; [intros [] | constructor] |].
    intros x Hx [<- | []]. exact (Hget Hx).
Qed.

Lemma fold_objSet_ownKeys_NoDup {V : Type} (entries : list (string * V)) :
  forall o,
    NoDup (ownKeys o) ->
    NoDup (ownKeys (fold_left (fun acc kv => objSet (fst kv) (snd kv) acc) entries o)).
Proof.
  induction entries as [| [k v] entries IH]; intros o Hnodup; simpl; [exact Hnodup |].
  apply IH, objSet_ownKeys_NoDup, Hnodup.
Qed.

(** [{ ...a, ...b }] for an object [b]: the entry of [b] when it has the
    key, that of [a] otherwise. *)
Lemma objGet_objSpread {V : Type} (k : string) (a b : Obj V) :
  NoDup (ownKeys b) ->
  objGet k (objSpread a b)
  = match objGet k b with
    | Some v => Some v
    | None => objGet k a
    end.
Proof.
  intros Hnodup. unfold objSpread. rewrite objGet_fold_objSet.
  fold (fromEntries b). rewrite (fromEntries_NoDup b Hnodup). reflexivity.
Qed.

Lemma createLazyRuleAccessors_objGet (ruleDefinitions : Obj ParserRuleFactory) key :
  objGet key (createLazyRuleAccessors ruleDefinitions)
  = match objGet key ruleDefinitions with
    | Some _ => Some (createLazyRuleAccessor ruleDefinitions key)
    | None => None
    end.
Proof.
  unfold createLazyRuleAccessors, fromEntries.
  rewrite (objGet_fold_keys (createLazyRuleAccessor ruleDefinitions)).
  rewrite existsb_ownKeys. destruct (objGet key ruleDefinitions); reflexivity.
Qed.

Lemma lazyRules_objGet (ruleDefinitions : Obj ParserRuleFactory) depth key :
  objGet key (lazyRules ruleDefinitions depth)
  = match objGet key ruleDefinitions with
    | Some _ => Some (ruleInstance ruleDefinitions depth key)
    | None => None
    end.
Proof.
  unfold lazyRules, fromEntries.
  rewrite (objGet_fold_keys (ruleInstance ruleDefinitions depth)).
  rewrite existsb_ownKeys. destruct (objGet key ruleDefinitions); reflexivity.
Qed.

(** The rules of a rule map resolve by name.  For a name the map defines,
    the table returned by [createLazyRuleAccessors] (the [rules] of
    [createGrammar]) has an accessor; calling it calls the rule that the
    factory of the name built from its handle; and that handle has an entry
    for every name of the map -- declared before or after, the name itself
    included -- which is the rule instance of that name.  A name the map
    does not define is in neither. *)
Theorem lazy_rule_accessors_resolve (ruleDefinitions : Obj ParserRuleFactory)
  (key : string) :
  (forall ruleFactory,
      objGet key ruleDefinitions = Some ruleFactory ->
      objGet key (createLazyRuleAccessors ruleDefinitions)
      = Some (createLazyRuleAccessor ruleDefinitions key)
      /\ (forall depth state helpers,
            createLazyRuleAccessor ruleDefinitions key (S depth) state helpers
            = ruleFactory (lazyRules ruleDefinitions depth) (S depth) state helpers)
      /\ (forall depth,
            objGet key (lazyRules ruleDefinitions depth)
            = Some (ruleInstance ruleDefinitions depth key)))
  /\ (objGet key ruleDefinitions = None ->
      objGet key (createLazyRuleAccessors ruleDefinitions) = None
      /\ forall depth, objGet key (lazyRules ruleDefinitions depth) = None)
  /\ (forall tokens rulesFactory,
        rules (createGrammar tokens rulesFactory)
        = createLazyRuleAccessors
            (rulesFactory (fromEntries (List.map (fun k => (k, k)) (ownKeys tokens))))).
Proof.
  conjuncts.
  - intros ruleFactory Hget. conjuncts.
    + rewrite createLazyRuleAccessors_objGet, Hget. reflexivity.
    + intros depth state helpers. unfold createLazyRuleAccessor.
      rewrite (ruleInstance_unfold ruleDefinitions depth key ruleFactory Hget).
      reflexivity.
    + intros depth. rewrite lazyRules_objGet, Hget. reflexivity.
  - intros Hget. split.
    + rewrite createLazyRuleAccessors_objGet, Hget. reflexivity.
    + intros depth. rewrite lazyRules_objGet, Hget. reflexivity.
  - reflexivity.
Qed.

Lemma createLazyRuleAccessors_NoDup (ruleDefinitions : Obj ParserRuleFactory) :
  NoDup (ownKeys (createLazyRuleAccessors ruleDefinitions)).
Proof.
  unfold createLazyRuleAccessors, fromEntries.
  apply fold_objSet_ownKeys_NoDup. constructor.
Qed.

Lemma extendGrammar_objGet (grammar : Grammar) (newRules : Obj ParserRuleFactory)
  (key : string) :
  objGet key (rules (extendGrammar grammar newRules))
  = match objGet key newRules with
    | Some _ => Some (createLazyRuleAccessor newRules key)
    | None => objGet key (rules grammar)
    end.
Proof.
  unfold extendGrammar. simpl.
  rewrite objGet_objSpread by apply createLazyRuleAccessors_NoDup.
  rewrite createLazyRuleAccessors_objGet.
  destruct (objGet key newRules); reflexivity.
Qed.

(** [extendGrammar(grammar, rules)] keeps the token types of the grammar;
    in its rules table a name of the new rule map has the accessor of the
    new rule, which overrides a rule of that name in the grammar, and
    every other name has what it had in the grammar.  Extending by the
    empty rule map gives the grammar back. *)
Theorem extendGrammar_merges (grammar : Grammar) (newRules : Obj ParserRuleFactory)
  (key : string) :
  tokenTypes (extendGrammar grammar newRules) = tokenTypes grammar
  /\ objGet key (rules (extendGrammar grammar newRules))
     = match objGet key newRules with
       | Some _ => Some (createLazyRuleAccessor newRules key)
       | None => objGet key (rules grammar)
       end
  /\ extendGrammar grammar [] = grammar.
Proof.
  conjuncts; [reflexivity | apply extendGrammar_objGet | destruct grammar; reflexivity].
Qed.

(* --------------------------------------------------------------------- *)
(** ** Grammars built from a description *)
(* --------------------------------------------------------------------- *)

Lemma objGet_fold_objSet_In {V : Type} (k : string) (v : V)
  (entries : list (string * V)) :
  forall o,
    objGet k (fold_left (fun acc kv => objSet (fst kv) (snd kv) acc) entries o) = Some v ->
    In (k, v) entries \/ objGet k o = Some v.
Proof.
  induction entries as [| [k' v'] entries IH]; intros o H; simpl in *; [right; exact H |].
  destruct (IH _ H) as [Hin | Hget]; [left; right; exact Hin |].
  destruct (String.eqb_spec k' k) as [-> | Hneq].
  - rewrite objGet_objSet_same in Hget. injection Hget as ->. left. left. reflexivity.
  - rewrite objGet_objSet_other in Hget by exact Hneq. right. exact Hget.
Qed.

(** An entry of an object built from entries is one of those entries. *)
Lemma objGet_fromEntries_In {V : Type} (k : string) (v : V)
  (entries : list (string * V)) :
  objGet k (fromEntries entries) = Some v -> In (k, v) entries.
Proof.
  intros H. destruct (objGet_fold_objSet_In k v entries [] H) as [Hin | Hget];
    [exact Hin | discriminate].
Qed.

(** The factory of a rule whose name is that of a node type wraps the
    lowering of its body in [node]. *)
Lemma ruleFactoryEntries_node (rules : list SyntaxRuleNode) (name : string)
  (ruleFactory : ParserRuleFactory) :
  In (name, ruleFactory) (ruleFactoryEntries rules) ->
  isNodeTypeIdentifier name = true ->
  exists body,
    ruleFactory = fun handle => node name (parseSyntaxExpression body handle).
Proof.
  induction rules as [| [target body | target body] rules IH]; simpl; intros Hin Hnode.
  - contradiction.
  - exact (IH Hin Hnode).
  - destruct Hin as [Heq | Hin]; [| exact (IH Hin Hnode)].
    destruct (isNodeTypeIdentifier target) eqn:Htarget.
    + injection Heq as -> <-. exists body. reflexivity.
    + injection Heq as -> _. congruence.
Qed.

(** In a grammar built from a description, a rule named as a node type
    yields nodes of that type: on success its value is the node
    [{type, properties, tokens}] whose type is the name of the rule and
    whose tokens are the locations of the tokens the rule consumed. *)
Lemma syntax_grammar_node_rule (ast : SyntaxProgramNode) (built : SyntaxGrammar)
  (name : string) (r : ParserRule) fuel state helpers st :
  parseSyntaxGrammar ast = Returned built ->
  isNodeTypeIdentifier name = true ->
  objGet name (rules (grammar built)) = Some r ->
  r fuel state helpers = Returned (Success st) ->
  exists properties,
    value st = VNode name properties (Some (List.map location (tokens st))).
Proof.
  unfold parseSyntaxGrammar.
  destruct (findNonTerminalRule (programRules ast)) as [[rootRuleName body] |];
    [| discriminate].
  destruct (isNodeTypeIdentifier rootRuleName); simpl; [| discriminate].
  intros H Hnode Hget Hr. injection H as <-. simpl in Hget.
  rewrite createLazyRuleAccessors_objGet in Hget.
  destruct (objGet name (fromEntries (ruleFactoryEntries (programRules ast))))
    as [ruleFactory |] eqn:Hfactory; [| discriminate].
  injection Hget as <-. unfold createLazyRuleAccessor in Hr.
  destruct fuel as [| depth]; [discriminate |].
  rewrite (ruleInstance_unfold _ depth name ruleFactory Hfactory) in Hr.
  apply objGet_fromEntries_In in Hfactory.
  destruct (ruleFactoryEntries_node _ _ _ Hfactory Hnode) as (body' & ->).
  unfold node in Hr.
  destruct (parseSyntaxExpression body' _ (S depth) state helpers)
    as [[inner | e] | exn | ]; simpl in Hr; try discriminate.
  injection Hr as <-. simpl. eexists. reflexivity.
Qed.

(** For a grammar built from a description, every successful parse from
    its root node type returns a node of that type. *)
Theorem syntax_grammar_parse_returns_root_node (ast : SyntaxProgramNode)
  (built : SyntaxGrammar) (input : list Token) (source : string) (fuel : nat)
  (root : Value) :
  parseSyntaxGrammar ast = Returned built ->
  Parser.parse (grammar built) input source (rootNodeType built) fuel
  = Returned (Success root) ->
  exists properties nodeTokens,
    root = VNode (rootNodeType built) properties (Some nodeTokens).
Proof.
  intros Hbuilt Hparse.
  assert (Hroot : isNodeTypeIdentifier (rootNodeType built) = true).
  { unfold parseSyntaxGrammar in Hbuilt.
    destruct (findNonTerminalRule (programRules ast)) as [[rootRuleName body] |];
      [| discriminate].
    destruct (isNodeTypeIdentifier rootRuleName) eqn:Hnode; simpl in Hbuilt;
      [| discriminate].
    injection Hbuilt as <-. exact Hnode. }
  unfold Parser.parse in Hparse.
  destruct (objGet (rootNodeType built) (rules (grammar built))) as [r |] eqn:Hget;
    [| discriminate].
  destruct (r fuel (mkInputState input source 0) (Parser.parseHelpers input source))
    as [[st | e] | exn | ] eqn:Hr; simpl in Hparse; try discriminate.
  destruct (outputIndex st =? List.length input); simpl in Hparse.
  - injection Hparse as <-.
    destruct (syntax_grammar_node_rule ast built _ r _ _ _ st Hbuilt Hroot Hget Hr)
      as (properties & ->).
    eexists. eexists. reflexivity.
  - destruct (nth_error input (outputIndex st)); discriminate.
Qed.

(** The text [a] parsed by the grammar of [A ::= "a"], [<Items> ::= [A, A]]
    from its root gives a node [Items]. *)
Lemma syntax_grammar_parse_returns_root_node_witness :
  exists properties nodeTokens,
    VNode "Items" (VArray [VToken (mkToken "A" (mkLocation 0 1))])
      (Some [mkLocation 0 1])
    = VNode "Items" properties (Some nodeTokens).
Proof.
  exact (syntax_grammar_parse_returns_root_node uppercaseProgram itemsSyntaxGrammar
           [mkToken "A" (mkLocation 0 1)] "a" 2
           (VNode "Items" (VArray [VToken (mkToken "A" (mkLocation 0 1))])
              (Some [mkLocation 0 1]))
           eq_refl eq_refl).
Defined.


Lemma tokenDefinitions_keys rules :
  ownKeys (tokenDefinitions rules) = ownKeys (terminalParsers rules).
Proof.
  induction rules as [| [name body | name body] rules IH]; simpl;
    [reflexivity | f_equal; exact IH | exact IH].
Qed.

Lemma ruleFactoryEntries_keys rules :
  ownKeys (ruleFactoryEntries rules) = nonTerminalNames rules.
Proof.
  induction rules as [| [name body | name body] rules IH]; simpl;
    [reflexivity | exact IH |].
  destruct (isNodeTypeIdentifier name); simpl; f_equal; exact IH.
Qed.

(** A grammar built from a description keeps the declaration order of
    names that are ordinary keys (not [__proto__], not beginning with a
    digit: an object lists array indices first).  When the names of the
    tokens are ordinary keys and no token is declared twice, the token
    table of the grammar lists the terminal rules in the order of the
    description, each with the parser of its literal or pattern: that is
    the order in which the lexer tries them.  When the names of the
    non-terminal rules are ordinary keys and none is declared twice, the
    rules table has the names of the non-terminal rules, in order. *)
Theorem syntax_grammar_keeps_declaration_order (ast : SyntaxProgramNode)
  (built : SyntaxGrammar) :
  parseSyntaxGrammar ast = Returned built ->
  (NoDup (ownKeys (terminalParsers (programRules ast))) ->
   forallb isOrdinaryKey (ownKeys (terminalParsers (programRules ast))) = true ->
   tokenTypes (grammar built) = terminalParsers (programRules ast))
  /\ (NoDup (nonTerminalNames (programRules ast)) ->
      forallb isOrdinaryKey (nonTerminalNames (programRules ast)) = true ->
      ownKeys (rules (grammar built)) = nonTerminalNames (programRules ast)).
Proof.
  unfold parseSyntaxGrammar.
  destruct (findNonTerminalRule (programRules ast)) as [[rootRuleName body] |];
    [| discriminate].
  destruct (isNodeTypeIdentifier rootRuleName); simpl; [| discriminate].
  intros H. injection H as <-. simpl. split.
  - intros Hnodup _. rewrite <- tokenDefinitions_keys in Hnodup.
    rewrite (fromEntries_NoDup (tokenDefinitions (programRules ast)) Hnodup).
    rewrite fromEntries_NoDup.
    + clear. induction (programRules ast) as [| [name body' | name body'] rules IH];
        simpl; [reflexivity | f_equal; exact IH | exact IH].
    + unfold ownKeys in *. rewrite List.map_map. simpl. exact Hnodup.
  - intros Hnodup _. rewrite <- ruleFactoryEntries_keys in Hnodup.
    rewrite (fromEntries_NoDup (ruleFactoryEntries (programRules ast)) Hnodup).
    unfold createLazyRuleAccessors.
    rewrite <- ruleFactoryEntries_keys.
    rewrite fromEntries_NoDup; unfold ownKeys in *; rewrite List.map_map; simpl;
      rewrite List.map_id; [reflexivity | exact Hnodup].
Qed.

(** The grammar of [A ::= "a"], [<Items> ::= [A, A]] has the token [A] and
    the rule [Items]. *)
Lemma syntax_grammar_keeps_declaration_order_witness :
  tokenTypes (grammar itemsSyntaxGrammar)
  = [("A", createTokenParser (PatternString "a"))]
  /\ ownKeys (rules (grammar itemsSyntaxGrammar)) = ["Items"].
Proof.
  destruct (syntax_grammar_keeps_declaration_order uppercaseProgram itemsSyntaxGrammar
              eq_refl) as [Htokens Hrules].
  split.
  - apply Htokens; [repeat constructor; intros [] | reflexivity].
  - apply Hrules; [repeat constructor; intros [] | reflexivity].
Defined.


(* --------------------------------------------------------------------- *)
(** ** [createPatternMatcher] *)
(* --------------------------------------------------------------------- *)

(** [createPatternMatcher(grammar, pattern)(input)] tokenizes the input
    with the token types of the grammar, applies the rule of the pattern
    to the tokens from the first one, and asks for the end of the input:
    - a lexical error is returned as it is;
    - a failure of the rule is returned as the [ParseError] of its message
      and location;
    - a success that consumed every token gives the value of the rule as
      [match] and the locations of the tokens it consumed as [tokens];
    - a success that left tokens gives the error "Expected end of input"
      at the first of them.
    The handle the pattern receives has the one key of the matcher's own
    root rule. *)
Theorem createPatternMatcher_matches (grammar : Grammar)
  (pattern : Obj TokenType -> ParserRuleFactory) (input : string) (depth : nat) :
  exists handle : RulesHandle,
    ownKeys handle = [PatternMatcherRootNodeType]
    /\ createPatternMatcher grammar pattern input (S depth)
       = (lexerResult <- Parser.tokenize grammar input (S depth) ;;
          match lexerResult with
          | Error e => Returned (Error e)
          | Success toks =>
              result <- pattern
                          (fromEntries
                             (List.map (fun k => (k, k)) (ownKeys (tokenTypes grammar))))
                          handle (S depth) (mkInputState toks input 0)
                          (Parser.parseHelpers toks input) ;;
              match result with
              | Error e =>
                  Returned (Error (newParseError (message e) input (errorLocation e)))
              | Success st =>
                  if outputIndex st =? List.length toks then
                    Returned (Success
                      {| matchValue := value st;
                         matchTokens := List.map location (tokens st) |})
                  else
                    match nth_error toks (outputIndex st) with
                    | Some nextToken =>
                        Returned (Error
                          (newParseError "Expected end of input" input
                             (location nextToken)))
                    | None =>
                        Thrown
                          "TypeError: Cannot read properties of undefined (reading 'location')"
                    end
              end
          end).
Proof.
  unfold createPatternMatcher.
  match goal with
  | |- context [extendGrammar grammar ?newRules] =>
      exists (lazyRules newRules depth);
      set (matcherRules := newRules)
  end.
  split; [reflexivity |].
  unfold parse, Parser.tokenize. simpl tokenTypes.
  destruct (Parser.tokenize_loop (S depth) (tokenTypes grammar) input [] 0)
    as [[toks | e] | exn | ]; try reflexivity.
  cbn [bind]. unfold Parser.parse.
  rewrite extendGrammar_objGet.
  change (objGet PatternMatcherRootNodeType matcherRules) with
    (Some (snd (hd (PatternMatcherRootNodeType, fun _ => undefinedRule) matcherRules))).
  cbv beta iota.
  unfold createLazyRuleAccessor.
  rewrite (ruleInstance_unfold matcherRules depth PatternMatcherRootNodeType _ eq_refl).
  fold (lazyRules matcherRules depth).
  destruct (pattern
              (fromEntries (List.map (fun k => (k, k)) (ownKeys (tokenTypes grammar))))
              (lazyRules matcherRules depth) (S depth) (mkInputState toks input 0)
              (Parser.parseHelpers toks input)) as [[st | e] | exn | ]; simpl;
    try reflexivity.
  unfold outputIndex. simpl.
  destruct (currentIndex (inputState st) =? List.length toks); simpl; [reflexivity |].
  destruct (nth_error toks (currentIndex (inputState st))); reflexivity.
Qed.

(* --------------------------------------------------------------------- *)
(** ** The line and the column of an offset *)
(* --------------------------------------------------------------------- *)

Lemma lineRangesFrom_cons s m rest sourceLength :
  lineRangesFrom s (m :: rest) sourceLength
  = {| lineStart := s; lineEnd := m |} :: lineRangesFrom (m + 1) rest sourceLength.
Proof. reflexivity. Qed.

Lemma findSourceLineOffsets_lineRangesFrom source :
  findSourceLineOffsets source
  = lineRangesFrom 0 (lineBreakMatches source 0) (String.length source).
Proof.
  unfold findSourceLineOffsets, lineRangesFrom.
  destruct (lineBreakMatches source 0); reflexivity.
Qed.

(** The last line ends where the source ends. *)
Lemma last_lineRangesFrom matches sourceLength :
  forall s,
    lineEnd (last (lineRangesFrom s matches sourceLength) (mkSourceLineRange 0 0))
    = sourceLength.
Proof.
  induction matches as [| m rest IH]; intros s; [reflexivity |].
  rewrite lineRangesFrom_cons.
  change (last (?x :: lineRangesFrom (m + 1) rest sourceLength) ?d)
    with (last (lineRangesFrom (m + 1) rest sourceLength) d).
  apply IH.
Qed.

(** In a text without carriage returns the line breaks are its line
    feeds. *)
Lemma lineBreakMatches_cons c rest base :
  noCarriageReturn (String c rest) = true ->
  lineBreakMatches (String c rest) base
  = if Ascii.eqb c "010"%char then base :: lineBreakMatches rest (S base)
    else lineBreakMatches rest (S base).
Proof.
  simpl. intros H. apply andb_prop in H. destruct H as [Hc _].
  apply negb_true_iff in Hc. rewrite Hc. reflexivity.
Qed.

(** Line breaks are found at or after the offset the scan starts from. *)
Lemma lineBreakMatches_ge text :
  noCarriageReturn text = true ->
  forall base m, In m (lineBreakMatches text base) -> base <= m.
Proof.
  induction text as [| c rest IH]; intros Hcr base m Hin; [contradiction |].
  rewrite (lineBreakMatches_cons c rest base Hcr) in Hin.
  simpl in Hcr. apply andb_prop in Hcr. destruct Hcr as [_ Hcr].
  destruct (Ascii.eqb c "010"%char).
  - destruct Hin as [<- | Hin]; [lia | apply (IH Hcr) in Hin; lia].
  - apply (IH Hcr) in Hin. lia.
Qed.

Lemma hd_lineBreakMatches_ge text base sourceLength :
  noCarriageReturn text = true ->
  base <= sourceLength ->
  base <= hd sourceLength (lineBreakMatches text base).
Proof.
  intros Hcr Hle.
  destruct (lineBreakMatches text base) as [| m rest] eqn:Hmatches; [exact Hle |].
  apply (lineBreakMatches_ge text Hcr base m). rewrite Hmatches. left. reflexivity.
Qed.

(** Finding the line of an offset among the line ranges, and reading the
    text up to the offset, give the same line and column. *)
Lemma findLineIndex_locate (text : string) :
  forall base s offset idx,
    noCarriageReturn text = true ->
    s <= base -> base <= offset -> offset <= base + String.length text ->
    exists k,
      findLineIndex
        (lineRangesFrom s (lineBreakMatches text base) (base + String.length text))
        offset idx = Some k
      /\ idx <= k
      /\ locateFrom text (offset - base) (S idx) (S (base - s))
         = {| line := S k;
              column :=
                S (offset
                   - lineStart
                       (nth (k - idx)
                          (lineRangesFrom s (lineBreakMatches text base)
                             (base + String.length text))
                          (mkSourceLineRange 0 0))) |}
      /\ (offset = base + String.length text ->
          S (k - idx)
          = List.length
              (lineRangesFrom s (lineBreakMatches text base)
                 (base + String.length text))).
Proof.
  induction text as [| c rest IH]; intros base s offset idx Hcr Hs Hbase Hoffset.
  - simpl in *. exists idx. unfold lineRangesFrom. simpl.
    destruct (Nat.leb_spec s offset) as [_ | Hlt]; [| lia].
    destruct (Nat.leb_spec offset (base + 0)) as [_ | Hlt]; [| lia].
    simpl. rewrite Nat.sub_diag. simpl.
    replace (offset - base) with 0 by lia. simpl.
    conjuncts; auto. repeat f_equal. lia.
  - destruct (Nat.eq_dec offset base) as [-> | Hneq].
    + (* the offset is where the scan starts: it is on the current line *)
      exists idx. unfold lineRangesFrom. cbn [findLineIndex lineStart lineEnd].
      destruct (Nat.leb_spec s base) as [_ | Hlt]; [| lia].
      pose proof (hd_lineBreakMatches_ge (String c rest) base
                    (base + String.length (String c rest)) Hcr) as Hhd.
      destruct (Nat.leb_spec base
                  (hd (base + String.length (String c rest))
                      (lineBreakMatches (String c rest) base))) as [_ | Hlt];
        [| lia].
      rewrite !Nat.sub_diag. cbn [andb nth lineStart locateFrom].
      conjuncts; auto.
      simpl String.length. intros Heq. lia.
    + rewrite (lineBreakMatches_cons c rest base Hcr).
      simpl in Hcr. apply andb_prop in Hcr. destruct Hcr as [_ Hcr].
      simpl String.length in *.
      replace (base + S (String.length rest)) with (S base + String.length rest) in *
        by lia.
      replace (offset - base) with (S (offset - S base)) by lia.
      cbn [locateFrom].
      destruct (Ascii.eqb c "010"%char) eqn:Hlf.
      * (* a line feed: the offset is on a later line *)
        rewrite lineRangesFrom_cons. replace (base + 1) with (S base) by lia.
        destruct (IH (S base) (S base) offset (S idx) Hcr)
          as (k & Hfind & Hk & Hlocate & Hend); try lia.
        exists k. cbn [findLineIndex lineStart lineEnd].
        destruct (Nat.leb_spec offset base) as [Hle | _]; [lia |].
        rewrite andb_false_r.
        conjuncts.
        -- exact Hfind.
        -- lia.
        -- rewrite Nat.sub_diag in Hlocate. rewrite Hlocate.
           replace (k - idx) with (S (k - S idx)) by lia. reflexivity.
        -- intros Heq. cbn [List.length]. rewrite <- (Hend Heq). lia.
      * (* any other character: the line goes on *)
        destruct (IH (S base) s offset idx Hcr)
          as (k & Hfind & Hk & Hlocate & Hend); try lia.
        exists k. conjuncts; auto.
        replace (S (S base - s)) with (S (S (base - s))) in Hlocate by lia.
        exact Hlocate.
Qed.

(** For a source without carriage returns, [findSourceLocation] gives the
    line and the column of the offset, both counted from 1: the line is
    one more than the number of line feeds before the offset, the column
    one more than the number of characters between the last of them and
    the offset.  An offset past the end of the source is located as the
    end of the source. *)
Theorem findSourceLocation_line_column (source : string) (offset : nat) :
  noCarriageReturn source = true ->
  findSourceLocation source offset
  = locate source (Nat.min offset (String.length source)).
Proof.
  intros Hcr. unfold findSourceLocation, locate.
  destruct (Nat.leb_spec offset 0) as [Hzero | Hpos].
  - replace (Nat.min offset (String.length source)) with 0 by lia.
    destruct source; reflexivity.
  - rewrite findSourceLineOffsets_lineRangesFrom. unfold getLineIndex.
    rewrite last_lineRangesFrom.
    destruct (Nat.ltb_spec (String.length source) offset) as [Hpast | Hwithin].
    + replace (Nat.min offset (String.length source)) with (String.length source)
        by lia.
      destruct (findLineIndex_locate source 0 0 (String.length source) 0 Hcr)
        as (k & Hfind & Hk & Hlocate & Hend); try lia.
      cbn [Nat.add Nat.sub] in Hlocate, Hend.
      replace (k - 0) with k in Hlocate, Hend by lia.
      replace (String.length source - 0) with (String.length source) in Hlocate by lia.
      rewrite Hlocate.
      unfold getSourceLocation. rewrite <- (Hend eq_refl).
      replace (S k - 1) with k by lia. reflexivity.
    + replace (Nat.min offset (String.length source)) with offset by lia.
      destruct (findLineIndex_locate source 0 0 offset 0 Hcr)
        as (k & Hfind & Hk & Hlocate & Hend); try lia.
      cbn [Nat.add Nat.sub] in Hfind, Hlocate. rewrite Hfind.
      replace (k - 0) with k in Hlocate by lia.
      replace (offset - 0) with offset in Hlocate by lia.
      rewrite Hlocate. reflexivity.
Qed.

(** The offset 9 of the two lines [foo bar] and [baz] is in line 2, at
    column 2. *)
Lemma findSourceLocation_line_column_witness :
  findSourceLocation ("foo bar" ++ newline ++ "baz") 9 = {| line := 2; column := 2 |}.
Proof.
  rewrite (findSourceLocation_line_column ("foo bar" ++ newline ++ "baz") 9 eq_refl).
  reflexivity.
Defined.

(* --------------------------------------------------------------------- *)
(** ** Tokens and the text they cover *)
(* --------------------------------------------------------------------- *)

Lemma substring_substring (s : string) :
  forall a n m,
    (substring a n s ++ substring (a + n) m s)%string = substring a (n + m) s.
Proof.
  induction s as [| c s IH]; intros a n m.
  - destruct a, n, m; reflexivity.
  - destruct a as [| a].
    + destruct n as [| n]; simpl.
      * reflexivity.
      * f_equal. apply (IH 0 n m).
    + simpl. apply IH.
Qed.

Lemma substring_none (s : string) : forall a, substring a 0 s = "".
Proof.
  induction s as [| c s IH]; intros a; destruct a; simpl; auto.
Qed.

Lemma substring_all (s : string) :
  forall n, String.length s <= n -> substring 0 n s = s.
Proof.
  induction s as [| c s IH]; intros n Hn.
  - destruct n; reflexivity.
  - destruct n as [| n]; simpl in *; [lia |]. f_equal. apply IH. lia.
Qed.

(** The texts of adjacent tokens, put end to end, are the text of the
    source from the start of the first to the end of the last. *)
Lemma joinStrings_contiguous (input : list Token) (source : string) (toks : list Token) :
  forall from,
    contiguousFrom from toks ->
    forwardTokens toks ->
    joinStrings (List.map (getTokenSource (Parser.parseHelpers input source)) toks)
    = slice source from (tokensEnd from toks).
Proof.
  unfold forwardTokens.
  induction toks as [| tok toks IH]; intros from Hcontiguous Hforward.
  - simpl. unfold slice. rewrite Nat.sub_diag, substring_none. reflexivity.
  - destruct Hcontiguous as [Hstart Hrest]. inversion Hforward as [| ? ? Htok Htoks]; subst.
    change (joinStrings
              (List.map (getTokenSource (Parser.parseHelpers input source)) (tok :: toks)))
      with (slice source (start (location tok)) (end_ (location tok))
            ++ joinStrings
                 (List.map (getTokenSource (Parser.parseHelpers input source)) toks))%string.
    rewrite (IH _ Hrest Htoks). cbn [tokensEnd]. unfold slice.
    assert (Hend : end_ (location tok) <= tokensEnd (end_ (location tok)) toks).
    { clear - Hrest Htoks. revert Hrest Htoks. generalize (end_ (location tok)).
      induction toks as [| t toks IHt]; intros n Hrest Htoks; simpl; [lia |].
      destruct Hrest as [Hs Hr]. inversion Htoks as [| ? ? Ht Hts]; subst.
      specialize (IHt _ Hr Hts). lia. }
    replace (end_ (location tok))
      with (start (location tok) + (end_ (location tok) - start (location tok)))
      at 2 by lia.
    rewrite substring_substring. f_equal. lia.
Qed.

(** [text(r)] over adjacent tokens.  When the tokens a rule consumed follow
    one another without a gap, [text] of the rule has for value the text of
    the source from the start of the first token to the end of the last
    (with the helpers of the driver). *)
Theorem text_of_adjacent_tokens (r : ParserRule) (fuel : nat)
  (state : ParserRuleInputState) (input : list Token) (source : string)
  (st : ParserRuleOutputState) (from : nat) :
  r fuel state (Parser.parseHelpers input source) = Returned (Success st) ->
  contiguousFrom from (tokens st) ->
  forwardTokens (tokens st) ->
  text r fuel state (Parser.parseHelpers input source)
  = Returned (Success
      (withValue (inputState st)
         (VString (slice source from (tokensEnd from (tokens st))))
         (tokens st))).
Proof.
  intros Hr Hcontiguous Hforward. unfold text. rewrite Hr. cbn [bind].
  rewrite (joinStrings_contiguous input source (tokens st) from Hcontiguous Hforward).
  reflexivity.
Qed.

(** [text(sequence(token(Foo), token(Comma)))] on the text [foo,bar]: the
    two tokens are adjacent and the value is the text [foo,]. *)
Lemma text_of_adjacent_tokens_witness :
  text (sequence [token "Foo"; token "Comma"]) 0 (startState "foo,bar")
    (Parser.parseHelpers (lexed "foo,bar") "foo,bar")
  = Returned (Success
      (withValue (withCurrentIndex (startState "foo,bar") 2) (VString "foo,")
         [mkToken "Foo" (mkLocation 0 3); mkToken "Comma" (mkLocation 3 4)])).
Proof.
  apply (text_of_adjacent_tokens (sequence [token "Foo"; token "Comma"]) 0
           (startState "foo,bar") (lexed "foo,bar") "foo,bar"
           (withValue (withCurrentIndex (startState "foo,bar") 2)
              (VArray [VToken (mkToken "Foo" (mkLocation 0 3));
                       VToken (mkToken "Comma" (mkLocation 3 4))])
              [mkToken "Foo" (mkLocation 0 3); mkToken "Comma" (mkLocation 3 4)])
           0).
  - reflexivity.
  - simpl. auto.
  - repeat constructor; simpl; lia.
Defined.

(** The tokens the lexer emits for declared patterns do not run backwards
    when the matches of the patterns do not. *)
Lemma tokenize_loop_forward patterns input n :
  (forall tokenType pattern index lastIndex,
      In (tokenType, pattern) patterns ->
      patternMatch pattern input index = Some lastIndex ->
      index <= lastIndex) ->
  forall collected currentIndex toks,
    forwardTokens collected ->
    Parser.tokenize_loop n (patternParsers patterns) input collected currentIndex
    = Returned (Success toks) ->
    forwardTokens toks.
Proof.
  intros Hforward. unfold forwardTokens.
  induction n as [| n IH]; intros collected currentIndex toks Hcollected H;
    simpl in H;
    destruct (Nat.ltb_spec currentIndex (String.length input)) as [Hlt | Hge];
    try (injection H as <-; exact Hcollected);
    rewrite tryTokenParsers_firstMatch in H;
    destruct (firstMatch patterns input currentIndex) as [[tokenType lastIndex] |]
      eqn:Hfirst; try discriminate.
  apply firstMatch_In in Hfirst. destruct Hfirst as (pattern & Hin & Hmatch).
  apply (IH _ _ _) in H; [exact H |].
  apply Forall_app. split; [exact Hcollected |].
  constructor; [| constructor]. simpl. exact (Hforward _ _ _ _ Hin Hmatch).
Qed.

(** Tokenization loses no character.  For declared patterns whose matches
    do not run backwards, the texts of the tokens of a successful
    tokenization, put end to end, are the source: every character of the
    source is in one token and in one only. *)
Theorem tokenize_covers_source (patterns : list (TokenType * Pattern))
  (input : string) (fuel : nat) (toks : list Token) :
  (forall tokenType pattern index lastIndex,
      In (tokenType, pattern) patterns ->
      patternMatch pattern input index = Some lastIndex ->
      index <= lastIndex) ->
  Parser.tokenize_loop fuel (patternParsers patterns) input [] 0
  = Returned (Success toks) ->
  joinStrings (List.map (getTokenSource (Parser.parseHelpers toks input)) toks)
  = input.
Proof.
  intros Hforward Hlex.
  destruct (tokenize_loop_contiguous _ _ _ [] 0 toks I eq_refl Hlex)
    as [Hcontiguous Hend].
  assert (Htoks : forwardTokens toks).
  { apply (tokenize_loop_forward patterns input fuel Hforward [] 0 toks);
      [constructor | exact Hlex]. }
  rewrite (joinStrings_contiguous toks input toks 0 Hcontiguous Htoks).
  unfold slice. rewrite Nat.sub_0_r. apply substring_all. exact Hend.
Qed.

(** A match of a string pattern ends as many characters after it began as
    the string has. *)
Lemma literalRegExp_lastIndex text input index lastIndex :
  literalRegExp text input index = Some lastIndex ->
  lastIndex = index + String.length text.
Proof.
  unfold literalRegExp.
  destruct ((index <=? String.length input)
            && String.eqb (substring index (String.length text) input) text);
    [| discriminate].
  intros H. injection H as <-. reflexivity.
Qed.

(** The texts of the tokens of [foo,bar], put end to end, are [foo,bar]. *)
Lemma tokenize_covers_source_witness :
  joinStrings
    (List.map
       (getTokenSource
          (Parser.parseHelpers
             [mkToken "Foo" (mkLocation 0 3); mkToken "Comma" (mkLocation 3 4);
              mkToken "Bar" (mkLocation 4 7)] "foo,bar"))
       [mkToken "Foo" (mkLocation 0 3); mkToken "Comma" (mkLocation 3 4);
        mkToken "Bar" (mkLocation 4 7)])
  = "foo,bar".
Proof.
  apply (tokenize_covers_source
           [("Foo", PatternString "foo"); ("Bar", PatternString "bar");
            ("Comma", PatternString ",")] "foo,bar" 7).
  - intros tokenType pattern index lastIndex Hin Hmatch.
    simpl in Hin.
    destruct Hin as [Hin | [Hin | [Hin | []]]]; injection Hin as <- <-;
      apply literalRegExp_lastIndex in Hmatch; lia.
  - reflexivity.
Defined.

Lemma firstMatch_app before tokenType pattern after input index :
  (forall k p, In (k, p) before -> patternMatch p input index = None) ->
  firstMatch (before ++ (tokenType, pattern) :: after) input index
  = match patternMatch pattern input index with
    | Some lastIndex => Some (tokenType, lastIndex)
    | None => firstMatch after input index
    end.
Proof.
  induction before as [| [k p] before IH]; intros Hnone; simpl; [reflexivity |].
  rewrite (Hnone k p) by (left; reflexivity).
  apply IH. intros k' p' Hin. apply (Hnone k' p'). right. exact Hin.
Qed.

(** A token declared by a string is the token of that string.  When the
    string is not empty and no pattern declared before it matches at its
    start, tokenizing the string gives one token, of that type, which
    covers the whole of it. *)
Theorem string_token_lexes_itself (before : list (TokenType * Pattern))
  (tokenType : TokenType) (text : string) (after : list (TokenType * Pattern))
  (n : nat) :
  text <> "" ->
  (forall k p, In (k, p) before -> patternMatch p text 0 = None) ->
  Parser.tokenize_loop (S n)
    (patternParsers (before ++ (tokenType, PatternString text) :: after)) text [] 0
  = Returned (Success [mkToken tokenType (mkLocation 0 (String.length text))]).
Proof.
  intros Hne Hbefore.
  assert (Hlen : 0 < String.length text).
  { destruct text; [contradiction | simpl; lia]. }
  cbn [Parser.tokenize_loop].
  destruct (Nat.ltb_spec 0 (String.length text)) as [_ | Hge]; [| lia].
  rewrite tryTokenParsers_firstMatch.
  rewrite (firstMatch_app before tokenType (PatternString text) after text 0 Hbefore).
  unfold patternMatch, literalRegExp.
  rewrite (substring_all text (String.length text) (Nat.le_refl _)).
  rewrite String.eqb_refl. simpl.
  destruct n; simpl;
    destruct (Nat.ltb_spec (String.length text) (String.length text)); try lia;
    reflexivity.
Qed.

(** With [Foo ::= "foo"] declared before [Bar ::= "bar"], the text [bar]
    is one token [Bar]. *)
Lemma string_token_lexes_itself_witness :
  Parser.tokenize_loop 1
    (patternParsers
       ([("Foo", PatternString "foo")] ++ ("Bar", PatternString "bar")
          :: [("Comma", PatternString ",")])) "bar" [] 0
  = Returned (Success [mkToken "Bar" (mkLocation 0 (String.length "bar"))]).
Proof.
  apply (string_token_lexes_itself [("Foo", PatternString "foo")] "Bar" "bar"
           [("Comma", PatternString ",")] 0).
  - discriminate.
  - intros k p [Hin | []]. injection Hin as <- <-. reflexivity.
Defined.

(* --------------------------------------------------------------------- *)
(** ** [escapeRegExpSource] *)
(* --------------------------------------------------------------------- *)

Lemma backslash_is_special c :
  isRegExpSpecialChar c = false -> Ascii.eqb c "\"%char = false.
Proof.
  destruct c as [[] [] [] [] [] [] [] []]; vm_compute; intros H;
    first [discriminate H | reflexivity].
Qed.

Lemma literalOfSource_escapeSpecialChars s :
  literalOfSource (escapeSpecialChars s) = Some s.
Proof.
  induction s as [| c s IH]; [reflexivity |].
  cbn [escapeSpecialChars]. destruct (isRegExpSpecialChar c) eqn:Hc.
  - cbn [literalOfSource]. rewrite Ascii.eqb_refl, Hc, IH. reflexivity.
  - cbn [literalOfSource]. rewrite (backslash_is_special c Hc), Hc, IH. reflexivity.
Qed.

Lemma escapeSpecialChars_ordinary s :
  hasRegExpSpecialChar s = false -> escapeSpecialChars s = s.
Proof.
  induction s as [| c s IH]; [reflexivity |].
  simpl. intros H. apply orb_false_elim in H. destruct H as [Hc Hs].
  rewrite Hc, (IH Hs). reflexivity.
Qed.

(** [escapeRegExpSource] makes a string a regular-expression source that
    stands for that string: every special character is preceded by a
    backslash and nothing else is changed, so that reading the escaped
    source back gives the string; a string with no special character is
    returned as it is. *)
Theorem escapeRegExpSource_literal (s : string) :
  literalOfSource (escapeRegExpSource s) = Some s
  /\ (hasRegExpSpecialChar s = false -> escapeRegExpSource s = s)
  /\ String.length (escapeRegExpSource s)
     = String.length s
       + List.length (filter isRegExpSpecialChar (list_ascii_of_string s)).
Proof.
  assert (Hescape : escapeRegExpSource s = escapeSpecialChars s).
  { unfold escapeRegExpSource. destruct (hasRegExpSpecialChar s) eqn:Hs; simpl;
      [reflexivity |]. symmetry. apply escapeSpecialChars_ordinary. exact Hs. }
  conjuncts.
  - rewrite Hescape. apply literalOfSource_escapeSpecialChars.
  - intros Hs. unfold escapeRegExpSource. rewrite Hs. reflexivity.
  - rewrite Hescape. clear Hescape. induction s as [| c s IH]; [reflexivity |].
    simpl. destruct (isRegExpSpecialChar c); simpl; rewrite IH; lia.
Qed.

(* --------------------------------------------------------------------- *)
(** ** The message of an error on a source of one line *)
(* --------------------------------------------------------------------- *)

Lemma string_append_assoc (a b c : string) :
  ((a ++ b) ++ c)%string = (a ++ (b ++ c))%string.
Proof.
  induction a as [| x a IH]; simpl; [reflexivity | f_equal; exact IH].
Qed.

Lemma lineBreakMatches_noLineFeed text :
  noLineFeed text = true -> forall base, lineBreakMatches text base = [].
Proof.
  induction text as [| c rest IH]; intros Hlf base; [reflexivity |].
  simpl in Hlf. apply andb_prop in Hlf. destruct Hlf as [Hc Hrest].
  apply negb_true_iff in Hc. simpl. rewrite Hc.
  destruct (Ascii.eqb c "013"%char); [| exact (IH Hrest (S base))].
  destruct rest as [| c' rest']; [reflexivity |].
  pose proof Hrest as Hrest'. simpl in Hrest'. apply andb_prop in Hrest'.
  destruct Hrest' as [Hc' _]. apply negb_true_iff in Hc'. rewrite Hc'.
  exact (IH Hrest (S base)).
Qed.

Lemma findSourceLineOffsets_one_line source :
  noLineFeed source = true ->
  findSourceLineOffsets source = [mkSourceLineRange 0 (String.length source)].
Proof.
  intros Hlf. unfold findSourceLineOffsets.
  rewrite (lineBreakMatches_noLineFeed source Hlf 0). reflexivity.
Qed.

Lemma getLineIndex_one_line len offset :
  offset <= len -> getLineIndex [mkSourceLineRange 0 len] offset = Some 0.
Proof.
  intros Hle. unfold getLineIndex. simpl.
  destruct (Nat.ltb_spec len offset) as [Hlt | _]; [lia |].
  destruct (Nat.leb_spec offset len) as [_ | Hlt]; [reflexivity | lia].
Qed.

(** On a source of one line, for a location within it, the message of an
    error is the message given, the line 1 and the column of the start of
    the location (counted from 1), then the source line after the gutter
    [1 |], and under it one caret for each character of the location (one
    caret when the location is empty). *)
Theorem formatErrorMessage_one_line (msg source : string) (loc : Location) :
  noLineFeed source = true ->
  start loc <= end_ loc ->
  end_ loc <= String.length source ->
  formatErrorMessage msg source loc
  = (msg ++ " at [1:" ++ stringOfNat (S (start loc)) ++ "]" ++ newline
       ++ "1 |" ++ source ++ newline
       ++ repeatString " " (3 + start loc)
       ++ repeatString "^" (Nat.max 1 (end_ loc - start loc)))%string.
Proof.
  intros Hlf Hstart Hend.
  unfold formatErrorMessage, findSourceSpan, formatSourceSnippet.
  assert (Hlocation : findSourceLocation source (start loc)
                      = {| line := 1; column := S (start loc) |}).
  { unfold findSourceLocation.
    destruct (Nat.leb_spec (start loc) 0) as [Hzero | Hpos].
    - replace (start loc) with 0 by lia. reflexivity.
    - rewrite (findSourceLineOffsets_one_line source Hlf).
      rewrite getLineIndex_one_line by lia.
      unfold getSourceLocation. simpl. rewrite Nat.sub_0_r. reflexivity. }
  rewrite Hlocation, (findSourceLineOffsets_one_line source Hlf).
  rewrite !getLineIndex_one_line by lia.
  cbn [firstn skipn Nat.add Nat.sub snippetLines joinLines line column spanStart
       lineStart lineEnd].
  change (padStart (stringOfNat 1) (String.length (stringOfNat 1)) ++ " |")%string
    with "1 |".
  change (String.length "1 |") with 3.
  change (stringOfNat 1) with "1".
  unfold formatSourceMarker, slice. cbn [lineStart lineEnd].
  rewrite !Nat.sub_0_r.
  rewrite (substring_all source (String.length source) (Nat.le_refl _)).
  replace (String.length source - start loc - (String.length source - end_ loc))
    with (end_ loc - start loc) by lia.
  cbn [append String.eqb Ascii.eqb Bool.eqb repeatString].
  f_equal. do 7 f_equal. rewrite string_append_assoc. reflexivity.
Qed.

(** The error "Expected end of input" at the trailing comma of [foo,]. *)
Lemma formatErrorMessage_one_line_witness :
  formatErrorMessage "Expected end of input" "foo," (mkLocation 3 4)
  = ("Expected end of input at [1:" ++ stringOfNat 4 ++ "]" ++ newline
       ++ "1 |" ++ "foo," ++ newline
       ++ repeatString " " (3 + 3) ++ repeatString "^" (Nat.max 1 (4 - 3)))%string.
Proof.
  apply (formatErrorMessage_one_line "Expected end of input" "foo," (mkLocation 3 4)).
  - reflexivity.
  - simpl. lia.
  - simpl. lia.
Defined.
